(** * The practice exercises: balance transfer, user queries, HTTP handlers
      and the schema check

    The core is practice-4's [TransferBalance], which moves money between two
    rows of the [users] table inside one database transaction: it reads the
    sender's balance, checks it against the amount, issues a debit and a credit
    [UPDATE], and commits; [defer tx.Rollback()] undoes the transaction on
    every other way out.

    The database sits behind [sqlx]; here it is a record holding the committed
    table, the working copy of the transaction in flight, the log of driver
    calls with their replies, and a fault oracle saying which driver call (by
    position) fails with which error.  The Go function is a state-passing
    function over that record.

    Money: the column is [DECIMAL(10,2)], so a balance is a number of cents, a
    [Z].  An amount comes from Go as a [float64] and reaches the server as the
    decimal the driver writes for it, with as many places as it takes; the
    server computes with that decimal exactly and rounds what it stores to the
    cent, halves away from zero.  NaN and the infinities are not amounts
    here, and a balance is never NULL, which the Go field could not hold.  A
    call the server rejects (lost connection, numeric overflow of the column,
    a text too long for its column, ...) is a fault of the oracle.  The model
    runs one call at a time: what concurrent transactions see of each other is
    the server's business.

    Around the core: the other queries of practice-4 ([InsertUser],
    [GetAllUsers], [GetUserByID]) and its seed statement; the substring test
    and the column check of practice-3's schema verification; the API key
    middleware and the [/user] handlers of practice-2; and the query building
    and the responses of the users listing.  Definitions come first, the
    results after them. *)

From stdpp Require Import gmap strings pretty sorting.
From Stdlib Require Import ZArith Ascii.

Local Open Scope Z_scope.

(** ** Data *)

(** A [float64] that holds money, by the decimal the driver writes for it
    when it is the argument of a statement: [units] / 10^[places] cents, so
    that 0.005 is 5 units at one place.  NaN and the infinities are left
    out. *)
Record float64 := mkFloat {
  units : Z;
  places : nat
}.

(** A number of cents as an amount; it stands for that amount wherever an
    amount is expected. *)
Definition cents (c : Z) : float64 := {| units := c; places := 0 |}.
Coercion cents : Z >-> float64.

Definition pow10 (n : nat) : Z := 10 ^ Z.of_nat n.

(** The amount is a whole number of cents, and that number. *)
Definition whole_cents (a : float64) : Prop := units a `mod` pow10 (places a) = 0.
Definition in_cents (a : float64) : Z := units a `div` pow10 (places a).

(** Go's [senderBalance < amount] for a balance of [b] cents, and its
    negation.  A balance has at most ten digits, so it is below the amount
    as a [float64] exactly when it is below it as a number. *)
Definition exceeds (a : float64) (b : Z) : Prop := b * pow10 (places a) < units a.
Definition covers (b : Z) (a : float64) : Prop := units a ≤ b * pow10 (places a).

#[global] Instance whole_cents_dec a : Decision (whole_cents a).
Proof. unfold whole_cents. apply _. Defined.

#[global] Instance exceeds_dec a b : Decision (exceeds a b).
Proof. unfold exceeds. apply _. Defined.

#[global] Instance covers_dec b a : Decision (covers b a).
Proof. unfold covers. apply _. Defined.

(** [n]/[d] rounded to the nearest integer, halves away from zero: how the
    server rounds a [numeric] to the scale of its column. *)
Definition round_half_away (n d : Z) : Z :=
  Z.sgn n * ((2 * Z.abs n + d) `div` (2 * d)).

(** [balance - $1], [balance + $1] and the amount itself, as the column
    stores them. *)
Definition minus (b : Z) (a : float64) : Z :=
  round_half_away (b * pow10 (places a) - units a) (pow10 (places a)).
Definition plus (b : Z) (a : float64) : Z :=
  round_half_away (b * pow10 (places a) + units a) (pow10 (places a)).
#[global] Arguments minus : simpl never.
#[global] Arguments plus : simpl never.

Definition to_cents (a : float64) : Z :=
  round_half_away (units a) (pow10 (places a)).

(** The Go struct [User]. *)
Record User := mkUser {
  ID : Z;
  Name : string;
  Email : string;
  Balance : float64
}.

(** A row of [users] without its [id]: that column is [SERIAL PRIMARY KEY], so
    the table is a finite map from [id] to the remaining columns. *)
Record Row := mkRow {
  name : string;
  email : string;
  balance : Z
}.

Definition set_balance (r : Row) (b : Z) : Row :=
  {| name := name r; email := email r; balance := b |}.

(** Go errors.  [Errorf p e] is [fmt.Errorf(p + ": %w", e)]; [ErrInsufficient]
    is the [fmt.Errorf] of the balance check, which carries the two amounts. *)
Inductive error : Type :=
  | ErrNoRows
  | ErrTxDone
  | ErrDriver (msg : string)
  | Errorf (prefix : string) (cause : error)
  | ErrInsufficient (senderBalance : Z) (amount : float64).

(** The two [UPDATE] statements the function issues. *)
Inductive Statement : Type :=
  | DecreaseBalance   (* UPDATE users SET balance = balance - $1 WHERE id = $2 *)
  | IncreaseBalance.  (* UPDATE users SET balance = balance + $1 WHERE id = $2 *)

Inductive Call : Type :=
  | CallBeginx
  | CallGet (id : Z)  (* SELECT balance FROM users WHERE id = $1 *)
  | CallExec (q : Statement) (amount : float64) (id : Z)
  | CallCommit
  | CallRollback.

Inductive Reply : Type :=
  | Failed (e : error)
  | Done
  | Scanned (b : Z)
  | RowsAffected (n : nat).

Record DB := mkDB {
  users : gmap Z Row;            (* committed contents of the table *)
  tx : option (gmap Z Row);      (* working copy of the open transaction *)
  calls : list (Call * Reply);   (* driver calls so far, oldest first *)
  fault : nat → option error     (* the error of the n-th driver call, if it fails *)
}.

Inductive result (A : Type) : Type :=
  | Ok (a : A)
  | Err (e : error).
Arguments Ok {A} a.
Arguments Err {A} e.

(** A database call: Go's [(value, err)] together with the new state. *)
Definition M (A : Type) : Type := DB → result A * DB.

(** ** The driver *)

Definition next_fault (db : DB) : option error := fault db (length (calls db)).

Definition reply (c : Call) (r : Reply) (t : option (gmap Z Row)) (db : DB) : DB :=
  {| users := users db; tx := t; calls := calls db ++ [(c, r)]; fault := fault db |}.

Definition committed (t : gmap Z Row) (c : Call) (r : Reply) (db : DB) : DB :=
  {| users := t; tx := None; calls := calls db ++ [(c, r)]; fault := fault db |}.

(** [db.Beginx()]: the transaction starts from the committed table. *)
Definition Beginx : M unit := λ db,
  match next_fault db with
  | Some e => (Err e, reply CallBeginx (Failed e) (tx db) db)
  | None => (Ok tt, reply CallBeginx Done (Some (users db)) db)
  end.

(** [tx.Get(&b, "SELECT balance FROM users WHERE id = $1", id)]: no row is
    [sql.ErrNoRows]. *)
Definition Get (id : Z) : M Z := λ db,
  match tx db with
  | None => (Err ErrTxDone, db)
  | Some t =>
      match next_fault db with
      | Some e => (Err e, reply (CallGet id) (Failed e) (tx db) db)
      | None =>
          match t !! id with
          | None => (Err ErrNoRows, reply (CallGet id) (Failed ErrNoRows) (tx db) db)
          | Some r => (Ok (balance r), reply (CallGet id) (Scanned (balance r)) (tx db) db)
          end
      end
  end.

Definition apply_statement (q : Statement) (amount : float64) (r : Row) : Row :=
  match q with
  | DecreaseBalance => set_balance r (minus (balance r) amount)
  | IncreaseBalance => set_balance r (plus (balance r) amount)
  end.

Definition rows_matching (id : Z) (t : gmap Z Row) : nat :=
  match t !! id with Some _ => 1%nat | None => 0%nat end.

(** [tx.Exec(q, amount, id)]: every row with that [id] is rewritten, and the
    result says how many there were.  A missing row is not an error. *)
Definition Exec (q : Statement) (amount : float64) (id : Z) : M nat := λ db,
  match tx db with
  | None => (Err ErrTxDone, db)
  | Some t =>
      match next_fault db with
      | Some e => (Err e, reply (CallExec q amount id) (Failed e) (tx db) db)
      | None =>
          let n := rows_matching id t in
          (Ok n, reply (CallExec q amount id) (RowsAffected n)
                       (Some (alter (apply_statement q amount) id t)) db)
      end
  end.

(** [tx.Commit()]: the working copy becomes the table; a failed commit leaves
    the table as it was.  Either way the transaction is over. *)
Definition Commit : M unit := λ db,
  match tx db with
  | None => (Err ErrTxDone, db)
  | Some t =>
      match next_fault db with
      | Some e => (Err e, reply CallCommit (Failed e) None db)
      | None => (Ok tt, committed t CallCommit Done db)
      end
  end.

(** [tx.Rollback()]: drops the working copy; on a finished transaction it is
    [sql.ErrTxDone] and reaches no driver. *)
Definition Rollback : M unit := λ db,
  match tx db with
  | None => (Err ErrTxDone, db)
  | Some _ =>
      match next_fault db with
      | Some e => (Err e, reply CallRollback (Failed e) None db)
      | None => (Ok tt, reply CallRollback Done None db)
      end
  end.

(** ** The program *)

(** [v, err := m; if err != nil { return fmt.Errorf(p + ": %w", err) }; k v] *)
Definition bind_wrap {A B : Type} (m : M A) (p : string) (k : A → M B) : M B := λ db,
  match m db with
  | (Err e, db') => (Err (Errorf p e), db')
  | (Ok a, db') => k a db'
  end.

Notation "'do' x <- m 'wrap' p ; k" := (bind_wrap m p (λ x, k))
  (at level 10, x name, m at level 200, p at level 0, k at level 200, only parsing).

Definition throw {A : Type} (e : error) : M A := λ db, (Err e, db).
Definition ret {A : Type} (a : A) : M A := λ db, (Ok a, db).

(** The body of [TransferBalance] after [defer tx.Rollback()]. *)
Definition transfer_body (fromID toID : Z) (amount : float64) : M unit :=
  do senderBalance <- Get fromID wrap "failed to get sender balance";
  if bool_decide (exceeds amount senderBalance)
  then throw (ErrInsufficient senderBalance amount)
  else
    do _ <- Exec DecreaseBalance amount fromID wrap "failed to decrease sender balance";
    do _ <- Exec IncreaseBalance amount toID wrap "failed to increase receiver balance";
    do _ <- Commit wrap "failed to commit transaction";
    ret tt.

(** [TransferBalance(db, fromID, toID, amount)]: [None] is Go's [nil]. *)
Definition TransferBalance (fromID toID : Z) (amount : float64) (db : DB)
  : option error * DB :=
  match Beginx db with
  | (Err e, db1) => (Some (Errorf "failed to begin transaction" e), db1)
  | (Ok _, db1) =>
      let '(r, db2) := transfer_body fromID toID amount db1 in
      let '(_, db3) := Rollback db2 in
      (match r with Ok _ => None | Err e => Some e end, db3)
  end.

(** [GetUserByID(db, id)], outside any transaction: it sees committed data. *)
Definition GetUserByID (id : Z) (db : DB) : result User :=
  match users db !! id with
  | Some r => Ok {| ID := id; Name := name r; Email := email r; Balance := balance r |}
  | None => Err ErrNoRows
  end.

(** The rows of the exercise's seed script, in cents. *)
Definition john : Row := mkRow "John Doe" "john.doe@example.com" 100000.
Definition jane : Row := mkRow "Jane Smith" "jane.smith@example.com" 150000.
Definition bob : Row := mkRow "Bob Johnson" "bob.johnson@example.com" 75000.
Definition alice : Row := mkRow "Alice Brown" "alice.brown@example.com" 200000.

Definition seed : gmap Z Row :=
  <[1 := john]> (<[2 := jane]> (<[3 := bob]> (<[4 := alice]> ∅))).

(** 0.005, half a cent. *)
Definition half_a_cent : float64 := {| units := 5; places := 1 |}.

(** A driver that never fails, and one whose [n]-th call fails with [e]. *)
Definition healthy : nat → option error := λ _, None.

Definition failing_at (n : nat) (e : error) : nat → option error :=
  λ k, if decide (k = n) then Some e else None.

Definition bad_conn : error := ErrDriver "driver: bad connection".

(** A fresh connection to a database holding [t]. *)
Definition connect (t : gmap Z Row) (f : nat → option error) : DB :=
  {| users := t; tx := None; calls := []; fault := f |}.

Definition balance_of (id : Z) (db : DB) : option Z := balance <$> users db !! id.

(** ** What a caller observes *)

(** [%.2f] of a number of cents. *)
Definition fmt_2f (c : Z) : string :=
  let a := Z.abs c in
  (if bool_decide (c < 0) then "-" else "") +:+
  pretty (a `div` 100) +:+ "." +:+
  pretty ((a `mod` 100) `div` 10) +:+ pretty (a `mod` 10).

(** [%.2f] of an amount that is a whole number of cents.  For any other
    amount the two digits depend on the binary value of the [float64]: [None]. *)
Definition fmt_2f_amount (a : float64) : option string :=
  if decide (whole_cents a) then Some (fmt_2f (in_cents a)) else None.

(** [err.Error()]. *)
Fixpoint Error (e : error) : option string :=
  match e with
  | ErrNoRows => Some "sql: no rows in result set"
  | ErrTxDone => Some "sql: transaction has already been committed or rolled back"
  | ErrDriver msg => Some msg
  | Errorf p cause => (λ s, p +:+ ": " +:+ s) <$> Error cause
  | ErrInsufficient b a =>
      (λ s, "insufficient balance: sender has " +:+ fmt_2f b +:+
            ", trying to transfer " +:+ s) <$> fmt_2f_amount a
  end.

(** The next [n] driver calls succeed. *)
Definition driver_ok (n : nat) (db : DB) : Prop :=
  ∀ k : nat, (length (calls db) ≤ k < length (calls db) + n)%nat → fault db k = None.

(** Sum of all balances of a table. *)
Definition total (t : gmap Z Row) : Z :=
  map_fold (λ _ r acc, balance r + acc) 0 t.

(** Rows rewritten by the [UPDATE]s of a call log. *)
Fixpoint mutated_rows (cs : list (Call * Reply)) : nat :=
  match cs with
  | [] => 0
  | (CallExec _ _ _, RowsAffected n) :: cs' => n + mutated_rows cs'
  | _ :: cs' => mutated_rows cs'
  end.

Definition nonnegative (t : gmap Z Row) : Prop :=
  map_Forall (λ _ r, 0 ≤ balance r) t.

(** The table after the debit and then the credit. *)
Definition debit_credit (fromID toID : Z) (amount : float64) (t : gmap Z Row)
  : gmap Z Row :=
  alter (apply_statement IncreaseBalance amount) toID
    (alter (apply_statement DecreaseBalance amount) fromID t).

(** Unfold one call down to the driver's replies. *)
Ltac unfold_transfer :=
  unfold TransferBalance, transfer_body, bind_wrap, throw, ret,
    Beginx, Get, Exec, Commit, Rollback, next_fault, reply, committed.

(** Use [H : driver_ok n db], unfolded, for every reply the goal asks for. *)
Ltac driver_replies H :=
  cbn;
  repeat (match goal with
          | |- context [fault _ ?n] =>
              rewrite (H n) by (rewrite ?length_app; cbn; lia)
          end; cbn).

(** ** The other queries of the exercise

    [InsertUser], [GetAllUsers] and [GetUserByID] run on the pool, outside any
    transaction, one statement each.  The connection adds to the database the
    sequence behind [id SERIAL] and an oracle of its own for these
    statements. *)

Record Conn := mkConn {
  store : DB;
  users_id_seq : Z;              (* last value the sequence of [id] handed out *)
  served : nat;                  (* statements sent on the pool so far *)
  refuse : nat → option error    (* the error of the n-th of them, if it fails *)
}.

Definition answered (c : Conn) : Conn :=
  {| store := store c; users_id_seq := users_id_seq c;
     served := S (served c); refuse := refuse c |}.

Definition with_seq (n : Z) (c : Conn) : Conn :=
  {| store := store c; users_id_seq := n; served := served c; refuse := refuse c |}.

Definition with_users (t : gmap Z Row) (c : Conn) : Conn :=
  {| store := {| users := t; tx := tx (store c);
                 calls := calls (store c); fault := fault (store c) |};
     users_id_seq := users_id_seq c; served := served c; refuse := refuse c |}.

(** The characters of a text in UTF-8: the bytes that do not continue a
    character. *)
Definition continues (c : ascii) : bool :=
  match c with Ascii _ _ _ _ _ _ b6 b7 => b7 && negb b6 end.

Definition chars (s : string) : nat :=
  length (filter (λ c, continues c = false) (String.list_ascii_of_string s)).

(** Up to [k] spaces taken off the end of a text given back to front. *)
Fixpoint cut_spaces (k : nat) (backwards : list ascii) : list ascii :=
  match k, backwards with
  | S k', c :: rest =>
      if decide (c = " "%char) then cut_spaces k' rest else backwards
  | _, _ => backwards
  end.

(** What a [VARCHAR(n)] column keeps of a text: all of it when it has at most
    [n] characters, and otherwise the text without the spaces that end it, as
    far as it is too long.  A text that is still too long after that is one
    the server rejects. *)
Definition varchar (n : nat) (s : string) : string :=
  String.string_of_list_ascii
    (reverse (cut_spaces (chars s - n) (reverse (String.list_ascii_of_string s)))).

(** The row the server stores for these values of [name] and [email], texts
    as [VARCHAR(100)] keeps them, and this balance in cents; and the row it
    stores for a [User], whose balance it rounds to the cent. *)
Definition stored (r : Row) : Row :=
  {| name := varchar 100 (name r); email := varchar 100 (email r);
     balance := balance r |}.

Definition row_of_user (u : User) : Row :=
  {| name := varchar 100 (Name u); email := varchar 100 (Email u);
     balance := to_cents (Balance u) |}.

Definition user_of_row (id : Z) (r : Row) : User :=
  {| ID := id; Name := name r; Email := email r; Balance := balance r |}.

(** The server's answer to a second row with the same key or the same email. *)
Definition quote : string := String (Ascii.ascii_of_nat 34) EmptyString.

Definition pq_duplicate_key (constraint : string) : error :=
  ErrDriver ("pq: duplicate key value violates unique constraint " +:+
             quote +:+ constraint +:+ quote).

(** Some row of the table has this email, as the column keeps it
    ([email VARCHAR(100) UNIQUE]). *)
Definition email_taken (e : string) (t : gmap Z Row) : Prop :=
  map_Exists (λ _ r, email r = varchar 100 e) t.

(** The order of [ORDER BY id]. *)
Definition by_id : relation (Z * Row) := λ x y, x.1 ≤ y.1.

#[global] Instance by_id_dec : RelDecision by_id.
Proof. intros x y. unfold by_id. apply _. Defined.

Module Crud.

(** [InsertUser(db, user)]: the statement names the columns [name], [email]
    and [balance]; [id] comes from the sequence, which moves on even when
    the row is then turned down.  The row is stored as the columns keep
    it. *)
Definition InsertUser (user : User) (c : Conn) : option error * Conn :=
  match refuse c (served c) with
  | Some e => (Some e, answered c)
  | None =>
      let id := users_id_seq c + 1 in
      let c' := with_seq id (answered c) in
      let t := users (store c) in
      if decide (is_Some (t !! id))
      then (Some (pq_duplicate_key "users_pkey"), c')
      else if decide (email_taken (Email user) t)
      then (Some (pq_duplicate_key "users_email_key"), c')
      else (None, with_users (<[id := row_of_user user]> t) c')
  end.

(** [GetAllUsers(db)]: every row, [ORDER BY id]. *)
Definition GetAllUsers (c : Conn) : result (list User) * Conn :=
  match refuse c (served c) with
  | Some e => (Err e, answered c)
  | None =>
      (Ok (uncurry user_of_row <$>
             merge_sort by_id (map_to_list (users (store c)))),
       answered c)
  end.

(** [GetUserByID(db, id)]. *)
Definition GetUserByID (id : Z) (c : Conn) : result User * Conn :=
  match refuse c (served c) with
  | Some e => (Err e, answered c)
  | None => (GetUserByID id (store c), answered c)
  end.

End Crud.

(** The seed statement, [INSERT INTO users (name, email, balance) VALUES ...
    ON CONFLICT (email) DO NOTHING]: each row takes the next [id]; a row whose
    email is taken is skipped; a taken [id] fails the whole statement
    ([None]).  Returns the sequence and the new table. *)
Fixpoint insert_do_nothing (rows : list Row) (seq : Z) (t : gmap Z Row)
  : Z * option (gmap Z Row) :=
  match rows with
  | [] => (seq, Some t)
  | r :: rows' =>
      let id := seq + 1 in
      if decide (email_taken (email r) t) then insert_do_nothing rows' id t
      else if decide (is_Some (t !! id)) then (id, None)
      else insert_do_nothing rows' id (<[id := stored r]> t)
  end.

Definition seed_rows : list Row := [john; jane; bob; alice].

(** The same pool on another state of the database. *)
Definition with_store (db : DB) (c : Conn) : Conn :=
  {| store := db; users_id_seq := users_id_seq c;
     served := served c; refuse := refuse c |}.

(** What identifies a user: everything but the balance. *)
Definition identity (u : User) : Z * string * string := (ID u, Name u, Email u).

(** The user [main] inserts. *)
Definition charlie : User :=
  mkUser 0 "Charlie Wilson" "charlie.wilson@example.com" 50000.

(** The values the columns of [users] take: a name and an email of at most
    100 characters once the spaces beyond are cut, and a balance that
    [DECIMAL(10,2)] holds, eight digits before the point.  Other values are
    turned down by the server. *)
Definition accepted (u : User) : Prop :=
  (chars (varchar 100 (Name u)) ≤ 100)%nat ∧
  (chars (varchar 100 (Email u)) ≤ 100)%nat ∧
  Z.abs (to_cents (Balance u)) < 10 ^ 10.

(** A name of 99 letters and two spaces, and a balance of half a cent. *)
Definition padded : User :=
  {| ID := 0;
     Name := String.string_of_list_ascii (replicate 99 "a"%char ++ [" "; " "]%char);
     Email := "padded@example.com";
     Balance := half_a_cent |}.

(** A pool on a database, with the sequence at [n]. *)
Definition pool (db : DB) (n : Z) (f : nat → option error) : Conn :=
  {| store := db; users_id_seq := n; served := 0; refuse := f |}.

(** Every [id] in the table came from the sequence. *)
Definition seq_ahead (n : Z) (t : gmap Z Row) : Prop :=
  ∀ id, is_Some (t !! id) → id ≤ n.

(** No two rows share an email. *)
Definition emails_unique (t : gmap Z Row) : Prop :=
  ∀ i j ri rj, t !! i = Some ri → t !! j = Some rj → email ri = email rj → i = j.

(** ** The schema check's substring test (practice-3, cmd/verify)

    A Go string is its bytes; [len] and the slice bounds are Go's [int],
    here [Z].  A slice expression out of range panics: [None]. *)

Abbreviation bytes := (list Ascii.ascii).

Definition len (s : bytes) : Z := Z.of_nat (length s).

(** [s[lo:hi]] *)
Definition slice (s : bytes) (lo hi : Z) : option (bytes) :=
  if decide (0 ≤ lo ∧ lo ≤ hi ∧ hi ≤ len s)
  then Some (take (Z.to_nat (hi - lo)) (drop (Z.to_nat lo) s))
  else None.

(** The loop of [containsSubstring] from index [i], with [n] iterations left:
    [for ; i <= len(s)-len(substr); i++]. *)
Fixpoint containsSubstring_from (n : nat) (i : Z) (s substr : bytes)
  : option bool :=
  match n with
  | O => Some false
  | S n' =>
      match slice s i (i + len substr) with
      | None => None
      | Some w =>
          if decide (w = substr) then Some true
          else containsSubstring_from n' (i + 1) s substr
      end
  end.

(** [containsSubstring(s, substr)]: the loop runs for [i] from [0] to
    [len(s)-len(substr)], that is not at all when the difference is negative. *)
Definition containsSubstring (s substr : bytes) : option bool :=
  containsSubstring_from (Z.to_nat (len s - len substr + 1)) 0 s substr.

(** [contains(s, substr)], with Go's short-circuit [&&] and [||]. *)
Definition contains (s substr : bytes) : option bool :=
  if decide (len substr ≤ len s) then
    if decide (s = substr) then Some true
    else if decide (len substr < len s) then
      match slice s 0 (len substr) with
      | None => None
      | Some p =>
          if decide (p = substr) then Some true
          else
            match slice s (len s - len substr) (len s) with
            | None => None
            | Some q =>
                if decide (q = substr) then Some true
                else containsSubstring s substr
            end
      end
    else Some false
  else Some false.

(** [substr] occurs in [s]. *)
Definition occurs_in (substr s : bytes) : Prop :=
  ∃ before after, s = before ++ substr ++ after.

(** [substr] is read off [s] at some index. *)
Definition occurs_at (substr s : bytes) : Prop :=
  ∃ j : nat, (j + length substr ≤ length s)%nat ∧
             take (length substr) (drop j s) = substr.

(** ** HTTP handlers (practice-2 and the users listing)

    What a handler can see of a request, and what the client receives: the
    header sent with the status line and the documents written after it.
    A log line is the text given to [log.Printf], without its time prefix. *)

#[warnings="-register-all"] Inductive json : Type :=
  | JNull
  | JInt (n : Z)
  | JString (s : string)
  | JArray (items : list json)
  | JObject (fields : list (string * json)).

Inductive chunk : Type :=
  | Json (v : json)     (* json.NewEncoder(w).Encode(v) *)
  | Text (s : string).  (* a line of plain text *)

Record ResponseWriter := mkWriter {
  headers : gmap string string;
  status : option Z;        (* [None] until the status line is written *)
  chunks : list chunk
}.

Record Request := mkRequest {
  Method : string;
  Path : string;                (* r.URL.Path *)
  RawQuery : string;            (* r.URL.RawQuery *)
  HeaderGet : string → string;  (* r.Header.Get *)
  QueryGet : string → string;   (* r.URL.Query().Get *)
  Body : string
}.

Record Server := mkServer {
  writer : ResponseWriter;
  logs : list string
}.

Definition fresh : Server :=
  {| writer := {| headers := ∅; status := None; chunks := [] |}; logs := [] |}.

(** [w.Header().Set(k, v)]: of no effect on what is sent once the status line
    is out. *)
Definition Set_ (k v : string) (w : ResponseWriter) : ResponseWriter :=
  match status w with
  | None => {| headers := <[k := v]> (headers w); status := None; chunks := chunks w |}
  | Some _ => w
  end.

(** [w.WriteHeader(code)]: the first call counts. *)
Definition WriteHeader (code : Z) (w : ResponseWriter) : ResponseWriter :=
  match status w with
  | None => {| headers := headers w; status := Some code; chunks := chunks w |}
  | Some _ => w
  end.

(** Writing to the body sends status 200 first if none was written. *)
Definition Write (c : chunk) (w : ResponseWriter) : ResponseWriter :=
  {| headers := headers w;
     status := Some (default 200 (status w));
     chunks := chunks w ++ [c] |}.

Definition Encode (v : json) (w : ResponseWriter) : ResponseWriter := Write (Json v) w.

Definition newline : string := String (Ascii.ascii_of_nat 10) EmptyString.
Definition tab : string := String (Ascii.ascii_of_nat 9) EmptyString.

(** [http.Error(w, msg, code)] *)
Definition http_Error (msg : string) (code : Z) (w : ResponseWriter) : ResponseWriter :=
  Write (Text (msg +:+ newline))
    (WriteHeader code
       (Set_ "X-Content-Type-Options" "nosniff"
          (Set_ "Content-Type" "text/plain; charset=utf-8" w))).

Definition Printf (line : string) (s : Server) : Server :=
  {| writer := writer s; logs := logs s ++ [line] |}.

Definition respond (f : ResponseWriter → ResponseWriter) (s : Server) : Server :=
  {| writer := f (writer s); logs := logs s |}.

(** [strconv.Atoi]: an optional sign, then decimal digits only, at least one,
    and a value that fits Go's 64-bit [int]; [None] is any error. *)
Fixpoint digits (acc : Z) (s : string) : option Z :=
  match s with
  | EmptyString => Some acc
  | String c s' =>
      match Ascii.is_nat c with
      | Some d => digits (10 * acc + Z.of_nat d) s'
      | None => None
      end
  end.

Definition Atoi (s : string) : option Z :=
  let '(negative, ds) :=
    match s with
    | String "-"%char rest => (true, rest)
    | String "+"%char rest => (false, rest)
    | _ => (false, s)
    end in
  match ds with
  | EmptyString => None
  | _ =>
      match digits 0 ds with
      | Some n =>
          let v := if negative : bool then - n else n in
          if decide (- 2 ^ 63 ≤ v ∧ v < 2 ^ 63) then Some v else None
      | None => None
      end
  end.

Module Api.

(** [JSONError] of [main] and [jsonError] of the middleware: the same body. *)
Definition JSONError (code : Z) (msg : string) (w : ResponseWriter) : ResponseWriter :=
  Encode (JObject [("error", JString msg)])
    (WriteHeader code (Set_ "Content-Type" "application/json" w)).

Definition jsonError (code : Z) (msg : string) (w : ResponseWriter) : ResponseWriter :=
  Encode (JObject [("error", JString msg)])
    (WriteHeader code (Set_ "Content-Type" "application/json" w)).

(** [GET /user?id=123] *)
Definition getUserHandler (r : Request) (w : ResponseWriter) : ResponseWriter :=
  match Atoi (QueryGet r "id") with
  | None => JSONError 400 "invalid id" w
  | Some id =>
      if decide (id ≤ 0) then JSONError 400 "invalid id" w
      else Encode (JObject [("user_id", JInt id)])
             (WriteHeader 200 (Set_ "Content-Type" "application/json" w))
  end.

(** [POST /user]; [Decode] stands for decoding the body into the struct with
    the one field [Name], [None] when the decoder fails. *)
Definition postUserHandler (Decode : string → option string)
    (r : Request) (w : ResponseWriter) : ResponseWriter :=
  match Decode (Body r) with
  | None => JSONError 400 "invalid name" w
  | Some n =>
      if decide (n = "") then JSONError 400 "invalid name" w
      else Encode (JObject [("created", JString n)])
             (WriteHeader 201 (Set_ "Content-Type" "application/json" w))
  end.

(** [APIKeyMiddleware(next)] *)
Definition APIKeyMiddleware (next : Request → Server → Server)
    (r : Request) (s : Server) : Server :=
  let s := Printf (Method r +:+ " " +:+ Path r) s in
  if decide (HeaderGet r "X-API-Key" ≠ "secret123")
  then respond (jsonError 401 "unauthorized") s
  else next r s.

(** The handler [main] registers for [/user]. *)
Definition user_handler (Decode : string → option string) : Request → Server → Server :=
  APIKeyMiddleware (λ r,
    respond
      (if decide (Method r = "GET") then getUserHandler r
       else if decide (Method r = "POST") then postUserHandler Decode r
       else JSONError 405 "method not allowed")).

End Api.

Module Orders.

Record User := mkUser {
  ID : Z;
  Name : string;
  City : string;
  TotalOrders : Z
}.

(** A query argument: the city, or a number for [LIMIT] and [OFFSET]. *)
Inductive Arg : Type :=
  | ArgText (s : string)
  | ArgInt (n : Z).

(** What [db.Query] and the iteration over its rows can give. *)
Inductive Answer : Type :=
  | QueryError (e : string)
  | ScanError (scanned : list User) (e : string)   (* rows.Scan failed on the next row *)
  | RowsError (scanned : list User) (e : string)   (* rows.Err() after the loop *)
  | Rows (scanned : list User).

(** [strings.Join] *)
Fixpoint Join (elems : list string) (sep : string) : string :=
  match elems with
  | [] => ""
  | [e] => e
  | e :: rest => e +:+ sep +:+ Join rest sep
  end.

Definition select_users : string :=
  newline +:+ tab +:+ tab +:+
  "SELECT u.id, u.name, u.city, COUNT(o.id) AS total_orders" +:+
  newline +:+ tab +:+ tab +:+ "FROM users u" +:+
  newline +:+ tab +:+ tab +:+ "LEFT JOIN orders o ON u.id = o.user_id" +:+
  newline +:+ tab.

(** The query text and its arguments, as [getUsersHandler] builds them from
    the parameters [city], [limit] and [offset]. *)
Definition build_query (city limitStr offsetStr : string) : string * list Arg :=
  let query := select_users in
  let argCount := 1%nat in
  let '(conditions, args, argCount) :=
    if decide (city ≠ "")
    then (["u.city = $" +:+ pretty argCount], [ArgText city], S argCount)
    else ([], [], argCount) in
  let query :=
    if decide (0 < length conditions)%nat
    then query +:+ " WHERE " +:+ Join conditions " AND "
    else query in
  let query := query +:+ " GROUP BY u.id, u.name, u.city" in
  let query := query +:+ " ORDER BY total_orders DESC, u.id DESC" in
  let '(query, args, argCount) :=
    if decide (limitStr ≠ "") then
      match Atoi limitStr with
      | Some limit =>
          if decide (0 < limit)
          then (query +:+ " LIMIT $" +:+ pretty argCount, args ++ [ArgInt limit],
                S argCount)
          else (query, args, argCount)
      | None => (query, args, argCount)
      end
    else (query, args, argCount) in
  let '(query, args) :=
    if decide (offsetStr ≠ "") then
      match Atoi offsetStr with
      | Some offset =>
          if decide (0 ≤ offset)
          then (query +:+ " OFFSET $" +:+ pretty argCount, args ++ [ArgInt offset])
          else (query, args)
      | None => (query, args)
      end
    else (query, args) in
  (query, args).

Definition encode_user (u : User) : json :=
  JObject [("id", JInt (ID u)); ("name", JString (Name u));
           ("city", JString (City u)); ("total_orders", JInt (TotalOrders u))].

(** A Go slice of users: [None] is the nil slice, which encodes as [null]. *)
Definition append_user (users : option (list User)) (u : User) : option (list User) :=
  Some (default [] users ++ [u]).

Definition encode_users (users : option (list User)) : json :=
  match users with
  | None => JNull
  | Some us => JArray (encode_user <$> us)
  end.

(** [fmt.Sprintf("%.3fms", float64(d.Microseconds())/1000.0)] *)
Definition fmt_ms (us : Z) : string :=
  pretty (us `div` 1000) +:+ "." +:+
  pretty ((us `mod` 1000) `div` 100) +:+ pretty ((us `mod` 100) `div` 10) +:+
  pretty (us `mod` 10) +:+ "ms".

Record State := mkState {
  server : Server;
  sent : list (string * list Arg)   (* the queries given to [db.Query] *)
}.

Definition on_server (f : Server → Server) (st : State) : State :=
  {| server := f (server st); sent := sent st |}.

(** [getUsersHandler(w, r)]; [db] answers the query, [elapsed] is the time
    the clock measured around it, in microseconds. *)
Definition getUsersHandler (db : string → list Arg → Answer) (elapsed : Z)
    (r : Request) (st : State) : State :=
  if decide (Method r ≠ "GET")
  then on_server (respond (http_Error "Method not allowed" 405)) st
  else
    let '(query, args) :=
      build_query (QueryGet r "city") (QueryGet r "limit") (QueryGet r "offset") in
    let st := {| server := server st; sent := sent st ++ [(query, args)] |} in
    let failed (line : string) :=
      on_server (λ s, respond (http_Error "Internal server error" 500)
                        (Printf line s)) st in
    match db query args with
    | QueryError e => failed ("Query error: " +:+ e)
    | ScanError _ e => failed ("Scan error: " +:+ e)
    | RowsError _ e => failed ("Rows error: " +:+ e)
    | Rows scanned =>
        let users := foldl append_user None scanned in
        let users := match users with None => Some [] | Some _ => users end in
        on_server
          (respond (λ w,
             Encode (encode_users users)
               (Set_ "X-Query-Time" (fmt_ms elapsed)
                  (Set_ "Content-Type" "application/json" w)))) st
    end.

End Orders.

(** The [limit] parameter is used: it is a number above zero.  Likewise the
    [offset] parameter: a number, zero or more. *)
Definition limit_used (limitStr : string) : bool :=
  match Atoi limitStr with Some n => bool_decide (0 < n) | None => false end.

Definition offset_used (offsetStr : string) : bool :=
  match Atoi offsetStr with Some n => bool_decide (0 ≤ n) | None => false end.

Definition listing_request (city limit offset : string) : Request :=
  {| Method := "GET"; Path := "/users"; RawQuery := "";
     HeaderGet := λ _, "";
     QueryGet := λ k, if decide (k = "city") then city
                      else if decide (k = "limit") then limit
                      else if decide (k = "offset") then offset else "";
     Body := "" |}.

Definition started : Orders.State := {| Orders.server := fresh; Orders.sent := [] |}.

(** ** The column check of the schema verification (practice-3, cmd/verify) *)

(** A row of [PRAGMA table_info(t)]. *)
Record Column := mkColumn {
  cid : Z;
  cname : string;
  ctype : string;
  notnull : Z;
  dflt_value : option string;
  pk : Z
}.

(** [foundColumns] after the loop over the rows: [foundColumns[name] = true]
    for each of them. *)
Definition foundColumns (rows : list Column) : gmap string bool :=
  foldl (λ found c, <[cname c := true]> found) ∅ rows.

(** The second loop: the program exits at an expected column that is not
    found; [true] when it does not exit.  Reading a missing key of a Go map
    gives [false]. *)
Definition columns_found (expectedColumns : gmap string string)
    (rows : list Column) : bool :=
  bool_decide
    (map_Forall (λ colName _, default false (foundColumns rows !! colName) = true)
       expectedColumns).

Definition users_columns : gmap string string :=
  <["id" := "INTEGER"]> (<["email" := "TEXT"]> (<["name" := "TEXT"]>
  (<["created_at" := "TIMESTAMP"]> ∅))).

Definition categories_columns : gmap string string :=
  <["id" := "INTEGER"]> (<["name" := "TEXT"]> (<["user_id" := "INTEGER"]>
  (<["created_at" := "TIMESTAMP"]> ∅))).

Definition expenses_columns : gmap string string :=
  <["id" := "INTEGER"]> (<["user_id" := "INTEGER"]> (<["category_id" := "INTEGER"]>
  (<["amount" := "DECIMAL"]> (<["currency" := "CHAR"]> (<["spent_at" := "TIMESTAMP"]>
  (<["created_at" := "TIMESTAMP"]> (<["note" := "TEXT"]> ∅))))))).

(** The column checks of [verifyUsersTable], [verifyCategoriesTable] and
    [verifyExpensesTable]. *)
Definition verifyUsersTable_columns := columns_found users_columns.
Definition verifyCategoriesTable_columns := columns_found categories_columns.
Definition verifyExpensesTable_columns := columns_found expenses_columns.

(** Requests and a decoder for the examples. *)
Definition no_decoder : string → option string := λ _, None.

Definition anonymous_get : Request :=
  {| Method := "GET"; Path := "/user"; RawQuery := "id=7";
     HeaderGet := λ _, ""; QueryGet := λ k, if decide (k = "id") then "7" else "";
     Body := "" |}.

Definition keyed_get : Request :=
  {| Method := "GET"; Path := "/user"; RawQuery := "id=7";
     HeaderGet := λ k, if decide (k = "X-API-Key") then "secret123" else "";
     QueryGet := λ k, if decide (k = "id") then "7" else "";
     Body := "" |}.

(** The numbers written after each [$] of a query text. *)
Fixpoint read_number (s : string) (acc : nat) : nat :=
  match s with
  | String c s' =>
      match Ascii.is_nat c with
      | Some d => read_number s' (10 * acc + d)
      | None => acc
      end
  | EmptyString => acc
  end.

Fixpoint placeholders (s : string) : list nat :=
  match s with
  | EmptyString => []
  | String c s' =>
      if decide (c = "$"%char) then read_number s' 0 :: placeholders s'
      else placeholders s'
  end.

(** ** Amounts and rounding *)

Lemma pow10_pos n : 0 < pow10 n.
Proof. unfold pow10. apply Z.pow_pos_nonneg; lia. Qed.

Lemma covers_iff b a : covers b a ↔ ¬ exceeds a b.
Proof. unfold covers, exceeds. lia. Qed.

Lemma round_half_away_exact m p : 0 < p → round_half_away (m * p) p = m.
Proof.
  intros Hp. unfold round_half_away.
  assert ((2 * Z.abs (m * p) + p) `div` (2 * p) = Z.abs m) as ->.
  { symmetry. apply (Z.div_unique_pos _ _ _ p); [lia|]. rewrite Z.abs_mul. lia. }
  rewrite Z.sgn_mul, (Z.sgn_pos p) by done. lia.
Qed.

Lemma round_half_away_nonneg n d : 0 ≤ n → 0 < d → 0 ≤ round_half_away n d.
Proof.
  intros Hn Hd. unfold round_half_away.
  apply Z.mul_nonneg_nonneg; [lia|]. apply Z.div_pos; lia.
Qed.

Lemma whole_cents_units a :
  whole_cents a → units a = in_cents a * pow10 (places a).
Proof.
  unfold whole_cents, in_cents. intros Hmod.
  pose proof (Z.div_mod (units a) (pow10 (places a))) as Hdm.
  pose proof (pow10_pos (places a)). lia.
Qed.

Lemma minus_whole b a : whole_cents a → minus b a = b - in_cents a.
Proof.
  intros Hw. unfold minus. rewrite (whole_cents_units a Hw) at 1.
  rewrite <- Z.mul_sub_distr_r. apply round_half_away_exact, pow10_pos.
Qed.

Lemma plus_whole b a : whole_cents a → plus b a = b + in_cents a.
Proof.
  intros Hw. unfold plus. rewrite (whole_cents_units a Hw) at 1.
  rewrite <- Z.mul_add_distr_r. apply round_half_away_exact, pow10_pos.
Qed.

Lemma covers_whole b a : whole_cents a → covers b a ↔ in_cents a ≤ b.
Proof.
  intros Hw. unfold covers. rewrite (whole_cents_units a Hw).
  pose proof (pow10_pos (places a)). nia.
Qed.

Lemma minus_nonneg b a : covers b a → 0 ≤ minus b a.
Proof.
  unfold covers, minus. intros Hc.
  apply round_half_away_nonneg; [lia|apply pow10_pos].
Qed.

Lemma plus_nonneg b a : 0 ≤ b → 0 ≤ units a → 0 ≤ plus b a.
Proof.
  unfold plus. intros Hb Ha. pose proof (pow10_pos (places a)).
  apply round_half_away_nonneg; [nia|done].
Qed.

(** ** Outcomes of a transfer *)

Lemma TransferBalance_cases fromID toID amount db :
  let '(err, db') := TransferBalance fromID toID amount db in
  fault db' = fault db ∧ (tx db = None → tx db' = None) ∧
  ((err ≠ None ∧ users db' = users db) ∨
   (err = None ∧ ∃ r, users db !! fromID = Some r ∧ covers (balance r) amount ∧
      users db' = debit_credit fromID toID amount (users db))).
Proof.
  unfold_transfer.
  cbn.
  repeat (case_match; simplify_eq/=); 
    repeat split; try done; try (left; split; done).
  all: try (right; split; [done|]; eexists; split; [eassumption|]; split; [|done]).
  all: try (case_bool_decide; simplify_eq/=; by apply covers_iff).
Qed.

Lemma TransferBalance_commits fromID toID amount db r :
  users db !! fromID = Some r →
  covers (balance r) amount →
  driver_ok 5 db →
  TransferBalance fromID toID amount db =
    (None,
     {| users := debit_credit fromID toID amount (users db);
        tx := None;
        calls := calls db ++
          [(CallBeginx, Done);
           (CallGet fromID, Scanned (balance r));
           (CallExec DecreaseBalance amount fromID, RowsAffected 1);
           (CallExec IncreaseBalance amount toID,
            RowsAffected (rows_matching toID (users db)));
           (CallCommit, Done)];
        fault := fault db |}).
Proof.
  intros Hr Hle Hok. unfold driver_ok in Hok.
  unfold_transfer.
  cbn. driver_replies Hok. rewrite Hr. cbn.
  rewrite bool_decide_eq_false_2 by (by apply covers_iff). driver_replies Hok.
  unfold debit_credit, rows_matching.
  rewrite Hr, lookup_alter, <- !app_assoc. cbn.
  case_decide; subst; rewrite ?Hr; cbn; [done|].
  by destruct (users db !! toID).
Qed.

Lemma TransferBalance_refuses fromID toID amount db r :
  users db !! fromID = Some r →
  exceeds amount (balance r) →
  driver_ok 2 db →
  TransferBalance fromID toID amount db =
    (Some (ErrInsufficient (balance r) amount),
     {| users := users db;
        tx := None;
        calls := calls db ++
          [(CallBeginx, Done);
           (CallGet fromID, Scanned (balance r));
           (CallRollback,
            match fault db (length (calls db) + 2) with
            | Some e => Failed e
            | None => Done
            end)];
        fault := fault db |}).
Proof.
  intros Hr Hlt Hok. unfold driver_ok in Hok.
  unfold_transfer.
  driver_replies Hok. rewrite Hr. cbn.
  rewrite bool_decide_eq_true_2 by done. cbn.
  rewrite !length_app, <- !app_assoc, <- Nat.add_assoc. cbn.
  destruct (fault db (length (calls db) + 2)); cbn;
    by rewrite <- ?app_assoc.
Qed.

Lemma healthy_driver_ok n t : driver_ok n (connect t healthy).
Proof. by intros k _. Qed.

(** Steps 4 and 5 of the exercise's [main]: 100.00 goes from user 1 to user 2,
    then a transfer of 10000.00 is refused. *)
Example main_transfer :
  let db1 := snd (TransferBalance 1 2 10000 (connect seed healthy)) in
  fst (TransferBalance 1 2 10000 (connect seed healthy)) = None ∧
  GetUserByID 1 db1 = Ok (mkUser 1 "John Doe" "john.doe@example.com" 90000) ∧
  GetUserByID 2 db1 = Ok (mkUser 2 "Jane Smith" "jane.smith@example.com" 160000) ∧
  fst (TransferBalance 1 2 1000000 db1) ≫= Error =
    Some "insufficient balance: sender has 900.00, trying to transfer 10000.00" ∧
  GetUserByID 1 (snd (TransferBalance 1 2 1000000 db1)) = GetUserByID 1 db1 ∧
  GetUserByID 2 (snd (TransferBalance 1 2 1000000 db1)) = GetUserByID 2 db1.
Proof. by vm_compute. Qed.

Example main_transfer_calls :
  calls (snd (TransferBalance 1 2 10000 (connect seed healthy))) =
  [(CallBeginx, Done); (CallGet 1, Scanned 100000);
   (CallExec DecreaseBalance 10000 1, RowsAffected 1);
   (CallExec IncreaseBalance 10000 2, RowsAffected 1);
   (CallCommit, Done)].
Proof. by vm_compute. Qed.

(** A driver failure at each of the five calls: the error that comes back. *)
Example driver_failures :
  let run n := TransferBalance 1 2 10000 (connect seed (failing_at n bad_conn)) in
  fst (run 0%nat) = Some (Errorf "failed to begin transaction" bad_conn) ∧
  fst (run 1%nat) = Some (Errorf "failed to get sender balance" bad_conn) ∧
  fst (run 2%nat) = Some (Errorf "failed to decrease sender balance" bad_conn) ∧
  fst (run 3%nat) = Some (Errorf "failed to increase receiver balance" bad_conn) ∧
  fst (run 4%nat) = Some (Errorf "failed to commit transaction" bad_conn) ∧
  calls (snd (run 3%nat)) =
    [(CallBeginx, Done); (CallGet 1, Scanned 100000);
     (CallExec DecreaseBalance 10000 1, RowsAffected 1);
     (CallExec IncreaseBalance 10000 2, Failed bad_conn);
     (CallRollback, Done)].
Proof. by vm_compute. Qed.

(** ** Transfers between two accounts *)

(** C1, as stated, fails in two ways.  When the sender is also the receiver,
    the call succeeds on the seeded table and the balance of account 1 is not
    lowered by the amount.  And for an amount of half a cent from account 1 to
    account 2 the call succeeds, account 1 stays at 1000.00 and account 2
    goes to 1500.01: the two results are rounded to the cent one by one, and
    the sum has grown by a cent. *)
Lemma transfer_to_self_or_of_half_a_cent :
  (users (connect seed healthy) !! 1 = Some john ∧
   covers (balance john) 10000 ∧
   driver_ok 5 (connect seed healthy) ∧
   fst (TransferBalance 1 1 10000 (connect seed healthy)) = None ∧
   balance_of 1 (snd (TransferBalance 1 1 10000 (connect seed healthy)))
     ≠ Some (balance john - 10000)) ∧
  (users (connect seed healthy) !! 1 = Some john ∧
   users (connect seed healthy) !! 2 = Some jane ∧
   covers (balance john) half_a_cent ∧
   driver_ok 5 (connect seed healthy) ∧
   fst (TransferBalance 1 2 half_a_cent (connect seed healthy)) = None ∧
   balance_of 1 (snd (TransferBalance 1 2 half_a_cent (connect seed healthy)))
     = Some 100000 ∧
   balance_of 2 (snd (TransferBalance 1 2 half_a_cent (connect seed healthy)))
     = Some 150001 ∧
   100000 + 150001 ≠ balance john + balance jane).
Proof.
  split.
  - split; [done|]. split; [by vm_compute|]. split; [apply healthy_driver_ok|].
    split; [by vm_compute|]. by vm_compute.
  - split; [done|]. split; [done|]. split; [by vm_compute|].
    split; [apply healthy_driver_ok|]. repeat split; by vm_compute.
Qed.

(** C1 (amended): when sender and receiver are two different existing accounts,
    the amount is a whole number of cents, the sender holds at least the
    amount and the next five driver calls succeed, [TransferBalance] returns
    nil, the sender's balance is lowered by the amount, the receiver's is
    raised by it, and their sum is what it was. *)
Theorem TransferBalance_moves_amount fromID toID amount db rs rd :
  fromID ≠ toID →
  users db !! fromID = Some rs →
  users db !! toID = Some rd →
  whole_cents amount →
  covers (balance rs) amount →
  driver_ok 5 db →
  ∃ db' s' d',
    TransferBalance fromID toID amount db = (None, db') ∧
    balance_of fromID db' = Some s' ∧
    balance_of toID db' = Some d' ∧
    s' = balance rs - in_cents amount ∧
    d' = balance rd + in_cents amount ∧
    s' + d' = balance rs + balance rd.
Proof.
  intros Hne Hs Hd Hw Hle Hok.
  eexists _, (balance rs - in_cents amount), (balance rd + in_cents amount).
  split; [by eapply TransferBalance_commits|].
  unfold balance_of, debit_credit; cbn.
  rewrite lookup_alter_ne, lookup_alter_eq, Hs by done.
  rewrite lookup_alter_eq, lookup_alter_ne, Hd by done. cbn.
  rewrite minus_whole, plus_whole by done.
  repeat split; lia.
Qed.

Lemma TransferBalance_moves_amount_witness :
  ∃ db' s' d',
    TransferBalance 1 2 10000 (connect seed healthy) = (None, db') ∧
    balance_of 1 db' = Some s' ∧
    balance_of 2 db' = Some d' ∧
    s' = balance john - in_cents 10000 ∧
    d' = balance jane + in_cents 10000 ∧
    s' + d' = balance john + balance jane.
Proof.
  apply (TransferBalance_moves_amount 1 2 10000 (connect seed healthy) john jane).
  - lia.
  - reflexivity.
  - reflexivity.
  - vm_compute. reflexivity.
  - vm_compute. discriminate.
  - intros k _. reflexivity.
Defined.

(** C2: when the sender exists, the amount exceeds its balance and the driver
    answers [Beginx] and [Get], the call returns the insufficient-balance error
    carrying the sender's balance and the requested amount, the table is
    unchanged, and the only driver calls are [Beginx], [Get] and [Rollback]:
    no [UPDATE] was issued. *)
Theorem TransferBalance_insufficient fromID toID amount db r :
  users db !! fromID = Some r →
  exceeds amount (balance r) →
  driver_ok 2 db →
  ∃ db' rb,
    TransferBalance fromID toID amount db =
      (Some (ErrInsufficient (balance r) amount), db') ∧
    users db' = users db ∧
    tx db' = None ∧
    calls db' = calls db ++
      [(CallBeginx, Done); (CallGet fromID, Scanned (balance r)); (CallRollback, rb)].
Proof.
  intros Hr Hlt Hok. eexists _, _.
  split; [by eapply TransferBalance_refuses|]. done.
Qed.

Lemma TransferBalance_insufficient_witness :
  ∃ db' rb,
    TransferBalance 1 2 1000000 (connect seed healthy) =
      (Some (ErrInsufficient (balance john) 1000000), db') ∧
    users db' = users (connect seed healthy) ∧
    tx db' = None ∧
    calls db' = calls (connect seed healthy) ++
      [(CallBeginx, Done); (CallGet 1, Scanned (balance john)); (CallRollback, rb)].
Proof.
  apply (TransferBalance_insufficient 1 2 1000000 (connect seed healthy) john).
  - reflexivity.
  - vm_compute. reflexivity.
  - intros k _. reflexivity.
Defined.

(** The message of the spec's second scenario. *)
Example scenario2_message :
  Error (ErrInsufficient 90000 1000000) =
  Some "insufficient balance: sender has 900.00, trying to transfer 10000.00".
Proof. by vm_compute. Qed.

(** ** Failed transfers *)

(** X1: The errors [TransferBalance] can return: one per statement that can fail,
    and the refusal of the balance check. *)
Lemma TransferBalance_errors fromID toID amount db e :
  fst (TransferBalance fromID toID amount db) = Some e →
  (∃ b, e = ErrInsufficient b amount ∧ exceeds amount b) ∨
  ∃ p cause, e = Errorf p cause ∧
    p ∈ ["failed to begin transaction"; "failed to get sender balance";
         "failed to decrease sender balance"; "failed to increase receiver balance";
         "failed to commit transaction"].
Proof.
  unfold_transfer.
  cbn. repeat (case_match; simplify_eq/=); intros; simplify_eq/=;
    try (right; eexists _, _; split; [done|]; set_solver).
  all: left; eexists; split; [done|];
    by match goal with H : bool_decide _ = true |- _ => apply bool_decide_eq_true in H end.
Qed.

(** C3: whenever [TransferBalance] returns an error, whichever it is, the
    committed table is the one from before the call, and no transaction of
    the call is left open. *)
Theorem TransferBalance_error_restores fromID toID amount db e db' :
  TransferBalance fromID toID amount db = (Some e, db') →
  users db' = users db ∧ (tx db = None → tx db' = None).
Proof.
  intros Hrun.
  pose proof (TransferBalance_cases fromID toID amount db) as Hc.
  rewrite Hrun in Hc. destruct Hc as (_ & Htx & [[_ Hu]|[? _]]); [done|congruence].
Qed.

Lemma TransferBalance_error_restores_witness :
  users (snd (TransferBalance 1 2 10000 (connect seed (failing_at 3 bad_conn))))
    = users (connect seed (failing_at 3 bad_conn)) ∧
  (tx (connect seed (failing_at 3 bad_conn)) = None →
   tx (snd (TransferBalance 1 2 10000 (connect seed (failing_at 3 bad_conn)))) = None).
Proof.
  apply (TransferBalance_error_restores 1 2 10000
           (connect seed (failing_at 3 bad_conn))
           (Errorf "failed to increase receiver balance" bad_conn)).
  vm_compute. reflexivity.
Defined.

(** ** Balances stay non-negative *)

Lemma seed_nonnegative : nonnegative seed.
Proof.
  unfold nonnegative, seed.
  repeat (apply map_Forall_insert_2; [cbn; lia|]). apply map_Forall_empty.
Qed.

(** C4, as stated, fails for a negative amount: on the seeded table the call
    with amount -2000.00 passes the balance check, succeeds, and leaves
    account 2 at -500.00. *)
Lemma negative_amount_overdraws_receiver :
  nonnegative (users (connect seed healthy)) ∧
  fst (TransferBalance 1 2 (-200000) (connect seed healthy)) = None ∧
  balance_of 2 (snd (TransferBalance 1 2 (-200000) (connect seed healthy)))
    = Some (-50000) ∧
  ¬ nonnegative (users (snd (TransferBalance 1 2 (-200000) (connect seed healthy)))).
Proof.
  split; [apply seed_nonnegative|]. split; [by vm_compute|].
  split; [by vm_compute|].
  intros Hall. specialize (Hall 2 (set_balance jane (-50000))). cbn in Hall.
  assert (0 ≤ -50000) as Habs by (apply Hall; by vm_compute). lia.
Qed.

(** C4 (amended): when every balance is non-negative and the amount is not
    negative, every balance is non-negative after [TransferBalance] has
    returned, with nil or with an error. *)
Theorem TransferBalance_keeps_nonnegative fromID toID amount db :
  nonnegative (users db) →
  0 ≤ units amount →
  nonnegative (users (snd (TransferBalance fromID toID amount db))).
Proof.
  intros Hall Hamount.
  pose proof (TransferBalance_cases fromID toID amount db) as Hc.
  destruct (TransferBalance fromID toID amount db) as [err db']; cbn.
  destruct Hc as (_ & _ & [[_ ->]|(_ & rs & Hs & Hle & ->)]); [done|].
  intros id r. unfold debit_credit. rewrite !lookup_alter.
  pose proof (Hall fromID rs Hs) as Hrs. cbn in Hrs.
  repeat case_decide; subst; rewrite ?Hs; cbn; intros Hr; simplify_eq/=;
    try (by apply (Hall _ _ Hr)).
  - by apply plus_nonneg; [apply minus_nonneg|].
  - destruct (users db !! id) as [rd|] eqn:Hd; simplify_eq/=.
    pose proof (Hall _ _ Hd) as Hrd. cbn in Hrd. by apply plus_nonneg.
  - by apply minus_nonneg.
Qed.

Lemma TransferBalance_keeps_nonnegative_witness :
  nonnegative (users (snd (TransferBalance 1 2 10000 (connect seed healthy)))).
Proof.
  apply (TransferBalance_keeps_nonnegative 1 2 10000 (connect seed healthy)).
  - unfold nonnegative, connect, seed; simpl.
    repeat (apply map_Forall_insert_2; [simpl; lia|]). apply map_Forall_empty.
  - simpl. lia.
Defined.

(** ** Amounts are not validated *)




(** ** Accounts that do not exist *)

(** X2: A missing sender is noticed by the read: it fails with [sql.ErrNoRows],
    and the table is unchanged. *)
Lemma TransferBalance_missing_sender fromID toID amount db :
  users db !! fromID = None →
  driver_ok 2 db →
  ∃ db',
    TransferBalance fromID toID amount db =
      (Some (Errorf "failed to get sender balance" ErrNoRows), db') ∧
    users db' = users db.
Proof.
  intros Hnone Hok. unfold driver_ok in Hok.
  unfold_transfer.
  driver_replies Hok. rewrite Hnone. cbn.
  destruct (fault db _); cbn; by eexists.
Qed.

(** C6 at the failing input: on the seeded table (ids 1 to 4), the call
    [TransferBalance(db, 1, 99, 10.00)] names a receiver that does not exist,
    yet it returns nil and account 1 has been debited. *)
Lemma transfer_to_missing_account_returns_nil :
  users (connect seed healthy) !! 99 = None ∧
  fst (TransferBalance 1 99 1000 (connect seed healthy)) = None ∧
  balance_of 1 (connect seed healthy) = Some 100000 ∧
  balance_of 1 (snd (TransferBalance 1 99 1000 (connect seed healthy))) = Some 99000.
Proof. repeat split; by vm_compute. Qed.

(** Sum of balances after rewriting one row. *)
Lemma total_alter (f : Row → Row) id (t : gmap Z Row) r :
  t !! id = Some r →
  total (alter f id t) = total t - balance r + balance (f r).
Proof.
  intros Hr. unfold total.
  assert (alter f id t = <[id := f r]> (delete id t)) as ->.
  { apply map_eq; intros j. rewrite lookup_alter, lookup_insert.
    case_decide; subst; [by rewrite Hr|]. by rewrite lookup_delete_ne. }
  rewrite (map_fold_delete_L _ 0 id r t); [|intros; lia|done].
  rewrite map_fold_insert_L; [lia|intros; lia|apply lookup_delete_eq].
Qed.

(** C10, as stated, fails for an amount below the cent: on the seeded table
    [TransferBalance(db, 1, 99, 0.005)] returns nil, the credit matches no row,
    and the debit stores 999.995 rounded to the cent, which is 1000.00 again:
    neither the sender's balance nor the sum of all balances went down. *)
Lemma half_a_cent_to_missing_account_debits_nothing :
  users (connect seed healthy) !! 1 = Some john ∧
  covers (balance john) half_a_cent ∧
  users (connect seed healthy) !! 99 = None ∧
  driver_ok 5 (connect seed healthy) ∧
  0 < units half_a_cent ∧
  fst (TransferBalance 1 99 half_a_cent (connect seed healthy)) = None ∧
  balance_of 1 (snd (TransferBalance 1 99 half_a_cent (connect seed healthy)))
    = Some (balance john) ∧
  total (users (snd (TransferBalance 1 99 half_a_cent (connect seed healthy))))
    = total (users (connect seed healthy)).
Proof.
  split; [done|]. split; [by vm_compute|]. split; [done|].
  split; [apply healthy_driver_ok|]. repeat split; by vm_compute.
Qed.

(** C10 (amended): when the sender exists with at least the amount, the amount
    is a whole number of cents, the receiver does not exist and the next five
    driver calls succeed, [TransferBalance] returns nil; the table is the old
    one with only the debit applied, the credit [UPDATE] reported zero rows,
    the sender's balance went down by the amount, and so did the sum of all
    balances. *)
Theorem TransferBalance_missing_receiver fromID toID amount db r :
  users db !! fromID = Some r →
  whole_cents amount →
  covers (balance r) amount →
  users db !! toID = None →
  driver_ok 5 db →
  ∃ db',
    TransferBalance fromID toID amount db = (None, db') ∧
    users db' = alter (apply_statement DecreaseBalance amount) fromID (users db) ∧
    balance_of fromID db' = Some (balance r - in_cents amount) ∧
    calls db' = calls db ++
      [(CallBeginx, Done);
       (CallGet fromID, Scanned (balance r));
       (CallExec DecreaseBalance amount fromID, RowsAffected 1);
       (CallExec IncreaseBalance amount toID, RowsAffected 0);
       (CallCommit, Done)] ∧
    total (users db') = total (users db) - in_cents amount.
Proof.
  intros Hr Hw Hle Hnone Hok. eexists.
  split; [by eapply TransferBalance_commits|]. cbn.
  assert (debit_credit fromID toID amount (users db) =
          alter (apply_statement DecreaseBalance amount) fromID (users db)) as ->.
  { unfold debit_credit. apply alter_id'. by rewrite lookup_alter_None. }
  split; [done|]. split.
  { unfold balance_of; cbn. by rewrite lookup_alter_eq, Hr; cbn; rewrite minus_whole. }
  split.
  { unfold rows_matching. by rewrite Hnone. }
  rewrite (total_alter _ _ _ r) by done. cbn. rewrite minus_whole by done. lia.
Qed.

Lemma TransferBalance_missing_receiver_witness :
  ∃ db',
    TransferBalance 1 99 1000 (connect seed healthy) = (None, db') ∧
    users db' =
      alter (apply_statement DecreaseBalance 1000) 1 (users (connect seed healthy)) ∧
    balance_of 1 db' = Some (balance john - in_cents 1000) ∧
    calls db' = calls (connect seed healthy) ++
      [(CallBeginx, Done);
       (CallGet 1, Scanned (balance john));
       (CallExec DecreaseBalance 1000 1, RowsAffected 1);
       (CallExec IncreaseBalance 1000 99, RowsAffected 0);
       (CallCommit, Done)] ∧
    total (users db') = total (users (connect seed healthy)) - in_cents 1000.
Proof.
  apply (TransferBalance_missing_receiver 1 99 1000 (connect seed healthy) john).
  - reflexivity.
  - vm_compute. reflexivity.
  - vm_compute. discriminate.
  - reflexivity.
  - intros k _. reflexivity.
Defined.

(** ** Sender and receiver are the same account *)

Lemma debit_credit_same id amount (t : gmap Z Row) :
  whole_cents amount →
  debit_credit id id amount t = t.
Proof.
  intros Hw. unfold debit_credit. apply map_eq; intros j. rewrite !lookup_alter.
  repeat case_decide; subst; try done.
  destruct (t !! j) as [[n e b]|]; cbn; [|done].
  unfold set_balance; cbn. rewrite minus_whole, plus_whole by done.
  do 2 f_equal. lia.
Qed.

(** C7, as stated, fails for an amount below the cent: on the seeded table
    [TransferBalance(db, 1, 1, 0.005)] passes the check and returns nil, and
    account 1 goes from 1000.00 to 1000.01.  The debit stores 999.995 rounded
    to 1000.00 and the credit stores 1000.005 rounded to 1000.01. *)
Lemma half_a_cent_to_self_adds_a_cent :
  users (connect seed healthy) !! 1 = Some john ∧
  covers (balance john) half_a_cent ∧
  driver_ok 5 (connect seed healthy) ∧
  fst (TransferBalance 1 1 half_a_cent (connect seed healthy)) = None ∧
  balance_of 1 (connect seed healthy) = Some 100000 ∧
  balance_of 1 (snd (TransferBalance 1 1 half_a_cent (connect seed healthy)))
    = Some 100001.
Proof.
  split; [done|]. split; [by vm_compute|]. split; [apply healthy_driver_ok|].
  repeat split; by vm_compute.
Qed.

(** C7 (amended): for a transfer from an existing account to itself, with the
    next five driver calls succeeding: a balance below the amount gives the
    insufficient-balance error, otherwise the call returns nil; and when the
    call was refused, or the amount is a whole number of cents, the table
    after the call is the table before it. *)
Theorem TransferBalance_same_account id amount db r :
  users db !! id = Some r →
  driver_ok 5 db →
  (exceeds amount (balance r) →
   fst (TransferBalance id id amount db) = Some (ErrInsufficient (balance r) amount)) ∧
  (covers (balance r) amount → fst (TransferBalance id id amount db) = None) ∧
  (exceeds amount (balance r) ∨ whole_cents amount →
   users (snd (TransferBalance id id amount db)) = users db).
Proof.
  intros Hr Hok.
  assert (driver_ok 2 db) as Hok2 by (intros k Hk; apply Hok; lia).
  destruct (decide (exceeds amount (balance r))) as [Hlt|Hge].
  - rewrite (TransferBalance_refuses id id amount db r) by done. cbn.
    split; [done|]. split; [|done]. intros Hc. by apply covers_iff in Hc.
  - apply covers_iff in Hge.
    rewrite (TransferBalance_commits id id amount db r) by done. cbn.
    split; [intros Hlt; by apply covers_iff in Hge|]. split; [done|].
    intros [Hlt|Hw]; [by apply covers_iff in Hge|by apply debit_credit_same].
Qed.

Lemma TransferBalance_same_account_witness :
  (exceeds 10000 (balance john) →
   fst (TransferBalance 1 1 10000 (connect seed healthy))
     = Some (ErrInsufficient (balance john) 10000)) ∧
  (covers (balance john) 10000 →
   fst (TransferBalance 1 1 10000 (connect seed healthy)) = None) ∧
  (exceeds 10000 (balance john) ∨ whole_cents 10000 →
   users (snd (TransferBalance 1 1 10000 (connect seed healthy)))
     = users (connect seed healthy)).
Proof.
  apply (TransferBalance_same_account 1 10000 (connect seed healthy) john).
  - reflexivity.
  - intros k _. reflexivity.
Defined.

(** ** What a transfer may touch *)

(** Rows other than the sender's and the receiver's are as they were. *)
Lemma TransferBalance_other_rows fromID toID amount db id :
  id ≠ fromID → id ≠ toID →
  users (snd (TransferBalance fromID toID amount db)) !! id = users db !! id.
Proof.
  intros Hf Ht.
  pose proof (TransferBalance_cases fromID toID amount db) as Hc.
  destruct (TransferBalance fromID toID amount db) as [err db']; cbn.
  destruct Hc as (_ & _ & [[_ ->]|(_ & rs & _ & _ & ->)]); [done|].
  unfold debit_credit. by rewrite !lookup_alter_ne.
Qed.

(** No row appears or disappears. *)
Lemma TransferBalance_same_ids fromID toID amount db :
  dom (users (snd (TransferBalance fromID toID amount db))) = dom (users db).
Proof.
  pose proof (TransferBalance_cases fromID toID amount db) as Hc.
  destruct (TransferBalance fromID toID amount db) as [err db']; cbn.
  destruct Hc as (_ & _ & [[_ ->]|(_ & rs & _ & _ & ->)]); [done|].
  unfold debit_credit. by rewrite !dom_alter_L.
Qed.

(** Of any row, only the balance column can differ. *)
Lemma TransferBalance_only_balance fromID toID amount db id r :
  users db !! id = Some r →
  ∃ b, users (snd (TransferBalance fromID toID amount db)) !! id
       = Some (set_balance r b).
Proof.
  intros Hr.
  pose proof (TransferBalance_cases fromID toID amount db) as Hc.
  destruct (TransferBalance fromID toID amount db) as [err db']; cbn.
  destruct Hc as (_ & _ & [[_ ->]|(_ & rs & _ & _ & ->)]).
  - exists (balance r). rewrite Hr. by destruct r.
  - unfold debit_credit. rewrite !lookup_alter.
    repeat case_decide; subst; rewrite ?Hr; cbn; try by eexists.
    exists (balance r). by destruct r.
Qed.

(** X3: With both rows present a transfer that commits has rewritten two rows. *)
Lemma TransferBalance_two_mutations fromID toID amount db rs rd :
  users db !! fromID = Some rs →
  users db !! toID = Some rd →
  covers (balance rs) amount →
  driver_ok 5 db →
  ∃ new,
    calls (snd (TransferBalance fromID toID amount db)) = calls db ++ new ∧
    mutated_rows new = 2%nat.
Proof.
  intros Hs Hd Hle Hok.
  rewrite (TransferBalance_commits fromID toID amount db rs) by done. cbn.
  eexists; split; [done|]. unfold rows_matching. by rewrite Hd.
Qed.

(** C8 at the failing input: [TransferBalance(db, 1, 99, 10.00)] on the seeded
    table returns nil although its two [UPDATE]s rewrote one row, not two: the
    credit matched no row. *)
Lemma transfer_to_missing_account_one_mutation :
  fst (TransferBalance 1 99 1000 (connect seed healthy)) = None ∧
  calls (snd (TransferBalance 1 99 1000 (connect seed healthy))) =
    [(CallBeginx, Done);
     (CallGet 1, Scanned 100000);
     (CallExec DecreaseBalance 1000 1, RowsAffected 1);
     (CallExec IncreaseBalance 1000 99, RowsAffected 0);
     (CallCommit, Done)] ∧
  mutated_rows (calls (snd (TransferBalance 1 99 1000 (connect seed healthy)))) = 1%nat.
Proof. repeat split; by vm_compute. Qed.

(** ** More on transfers: money, transactions and the statements sent *)

(** X4: When the receiver's row exists and the amount is a whole number of
    cents, the sum of all balances is the same after the call as before it,
    whatever the call returned. *)
Theorem TransferBalance_total_conserved fromID toID amount db rd :
  users db !! toID = Some rd →
  whole_cents amount →
  total (users (snd (TransferBalance fromID toID amount db))) = total (users db).
Proof.
  intros Hd Hw.
  pose proof (TransferBalance_cases fromID toID amount db) as Hc.
  destruct (TransferBalance fromID toID amount db) as [err db']; cbn.
  destruct Hc as (_ & _ & [[_ ->]|(_ & rs & Hs & _ & ->)]); [done|].
  unfold debit_credit.
  destruct (decide (fromID = toID)) as [->|Hne].
  - rewrite (total_alter _ _ _ (apply_statement DecreaseBalance amount rs))
      by (by rewrite lookup_alter_eq, Hs).
    rewrite (total_alter _ _ _ rs) by done. cbn.
    rewrite plus_whole, minus_whole by done. lia.
  - rewrite (total_alter _ _ _ rd) by (by rewrite lookup_alter_ne).
    rewrite (total_alter _ _ _ rs) by done. cbn.
    rewrite plus_whole, minus_whole by done. lia.
Qed.

Lemma TransferBalance_total_conserved_witness :
  total (users (snd (TransferBalance 1 2 10000 (connect seed healthy))))
    = total (users (connect seed healthy)).
Proof.
  apply (TransferBalance_total_conserved 1 2 10000 (connect seed healthy) jane).
  - reflexivity.
  - vm_compute. reflexivity.
Defined.

(** X5: A call that starts with no transaction open ends with none open, whether
    it committed, was refused, or failed at any statement. *)
Theorem TransferBalance_closes_transaction fromID toID amount db :
  tx db = None →
  tx (snd (TransferBalance fromID toID amount db)) = None.
Proof.
  intros Htx.
  pose proof (TransferBalance_cases fromID toID amount db) as Hc.
  destruct (TransferBalance fromID toID amount db) as [err db']; cbn.
  destruct Hc as (_ & Hclosed & _). by apply Hclosed.
Qed.

Lemma TransferBalance_closes_transaction_witness :
  tx (snd (TransferBalance 1 2 10000 (connect seed (failing_at 2 bad_conn)))) = None.
Proof.
  apply (TransferBalance_closes_transaction 1 2 10000
           (connect seed (failing_at 2 bad_conn))).
  reflexivity.
Defined.

(** X6: The driver calls of one [TransferBalance], in order, are one of five
    sequences: a lone [Beginx]; or [Beginx], the read, then the debit, then the
    credit, cut short by [Rollback] at the first failure or refusal; or all
    four followed by [Commit].  So no [UPDATE] is sent before the read, no
    credit without the debit before it, and nothing after [Commit]. *)
Theorem TransferBalance_call_sequence fromID toID amount db :
  ∃ new,
    calls (snd (TransferBalance fromID toID amount db)) = calls db ++ new ∧
    fst <$> new ∈
      [ [CallBeginx];
        [CallBeginx; CallGet fromID; CallRollback];
        [CallBeginx; CallGet fromID; CallExec DecreaseBalance amount fromID;
         CallRollback];
        [CallBeginx; CallGet fromID; CallExec DecreaseBalance amount fromID;
         CallExec IncreaseBalance amount toID; CallRollback];
        [CallBeginx; CallGet fromID; CallExec DecreaseBalance amount fromID;
         CallExec IncreaseBalance amount toID; CallCommit] ].
Proof.
  unfold_transfer. cbn.
  repeat (case_match; simplify_eq/=);
    (eexists; split; [rewrite <- ?app_assoc; cbn; reflexivity|]);
    cbn; set_solver.
Qed.

(** X7: Sending an amount and sending it back restores the table: with both rows
    present, the amount a whole number of cents, the sender holding the
    amount, the receiver not in debt, and the ten driver calls succeeding,
    both calls return nil and the table after the second is the table before
    the first. *)
Theorem TransferBalance_there_and_back a b amount db ra rb :
  users db !! a = Some ra →
  users db !! b = Some rb →
  whole_cents amount →
  covers (balance ra) amount →
  0 ≤ balance rb →
  driver_ok 10 db →
  let db1 := snd (TransferBalance a b amount db) in
  fst (TransferBalance a b amount db) = None ∧
  fst (TransferBalance b a amount db1) = None ∧
  users (snd (TransferBalance b a amount db1)) = users db.
Proof.
  intros Ha Hb Hw Hle Hnn Hok.
  assert (driver_ok 5 db) as Hok1 by (intros k Hk; apply Hok; lia).
  cbn zeta. rewrite (TransferBalance_commits a b amount db ra) by done. cbn.
  split; [done|].
  set (db1 := {| users := debit_credit a b amount (users db) |}).
  assert (driver_ok 5 db1) as Hok2.
  { intros k Hk. subst db1; cbn in *. rewrite length_app in Hk; cbn in Hk.
    apply Hok. lia. }
  pose proof (proj1 (covers_whole _ _ Hw) Hle) as Hle0.
  assert (∃ rb', users db1 !! b = Some rb' ∧ covers (balance rb') amount)
    as (rb' & Hb' & Hle').
  { subst db1; cbn. unfold debit_credit. rewrite lookup_alter_eq, lookup_alter.
    case_decide; subst; simplify_eq; rewrite ?Ha, ?Hb; cbn;
      eexists; (split; [done|]); cbn; (apply covers_whole; [done|]);
      rewrite ?plus_whole, ?minus_whole by done; lia. }
  rewrite (TransferBalance_commits b a amount db1 rb') by done. cbn.
  split; [done|]. subst db1; cbn.
  apply map_eq; intros j. unfold debit_credit. rewrite !lookup_alter.
  repeat case_decide; subst; simplify_eq; try done;
    destruct (users db !! j) as [[n e bal]|]; cbn; try done;
    unfold set_balance; cbn; rewrite ?plus_whole, ?minus_whole by done;
    rewrite ?plus_whole, ?minus_whole by done; do 2 f_equal; lia.
Qed.

Lemma TransferBalance_there_and_back_witness :
  let db1 := snd (TransferBalance 1 2 10000 (connect seed healthy)) in
  fst (TransferBalance 1 2 10000 (connect seed healthy)) = None ∧
  fst (TransferBalance 2 1 10000 db1) = None ∧
  users (snd (TransferBalance 2 1 10000 db1)) = users (connect seed healthy).
Proof.
  apply (TransferBalance_there_and_back 1 2 10000 (connect seed healthy) john jane).
  - reflexivity.
  - reflexivity.
  - vm_compute. reflexivity.
  - vm_compute. discriminate.
  - vm_compute. discriminate.
  - intros k _. reflexivity.
Defined.

(** ** Inserting users *)

Example seed_script_on_empty_table :
  insert_do_nothing seed_rows 0 ∅ = (4, Some seed).
Proof. by vm_compute. Qed.

Example GetAllUsers_seed :
  fst (Crud.GetAllUsers (pool (connect seed healthy) 4 healthy)) =
  Ok [mkUser 1 "John Doe" "john.doe@example.com" 100000;
      mkUser 2 "Jane Smith" "jane.smith@example.com" 150000;
      mkUser 3 "Bob Johnson" "bob.johnson@example.com" 75000;
      mkUser 4 "Alice Brown" "alice.brown@example.com" 200000].
Proof. by vm_compute. Qed.

Lemma seed_seq_ahead : seq_ahead 4 seed.
Proof.
  intros id [r Hr]. unfold seed in Hr.
  repeat (apply lookup_insert_Some in Hr as [[<- _]|[_ Hr]]; [lia|]).
  by rewrite lookup_empty in Hr.
Qed.

Lemma varchar_short n s : (chars s ≤ n)%nat → varchar n s = s.
Proof.
  intros Hle. unfold varchar.
  replace (chars s - n)%nat with 0%nat by lia.
  assert (∀ l, cut_spaces 0 l = l) as -> by (by intros []).
  rewrite reverse_involutive. apply String.string_of_list_ascii_of_string.
Qed.

Lemma to_cents_whole a : whole_cents a → to_cents a = in_cents a.
Proof.
  intros Hw. unfold to_cents. rewrite (whole_cents_units a Hw) at 1.
  apply round_half_away_exact, pow10_pos.
Qed.

(** What the columns do to the values: a name of 101 characters that ends in
    two spaces comes back with 100, and a balance of 0.005 as 0.01. *)
Example InsertUser_rounds_and_cuts :
  accepted padded ∧
  chars (Name padded) = 101%nat ∧
  fst (Crud.InsertUser padded (pool (connect seed healthy) 4 healthy)) = None ∧
  fst (Crud.GetUserByID 5
         (snd (Crud.InsertUser padded (pool (connect seed healthy) 4 healthy)))) =
    Ok {| ID := 5;
          Name := String.string_of_list_ascii (replicate 99 "a"%char ++ [" "%char]);
          Email := "padded@example.com";
          Balance := 1 |}.
Proof.
  split; [|repeat split; by vm_compute].
  unfold accepted. split; [vm_compute; lia|]. split; [vm_compute; lia|].
  by vm_compute.
Qed.

(** X8: A user inserted with an email nobody has can be read back: when the
    sequence is ahead of every [id], the columns accept the values and the two
    statements are answered, [InsertUser] returns nil and [GetUserByID] at the
    next value of the sequence returns the name and the email as
    [VARCHAR(100)] keeps them and the balance rounded to the cent.  These are
    the name, email and balance given when the texts have at most 100
    characters and the balance is a whole number of cents.  The [ID] of the
    argument plays no part. *)
Theorem InsertUser_then_GetUserByID user c :
  refuse c (served c) = None →
  refuse c (S (served c)) = None →
  seq_ahead (users_id_seq c) (users (store c)) →
  ¬ email_taken (Email user) (users (store c)) →
  accepted user →
  ∃ c1,
    Crud.InsertUser user c = (None, c1) ∧
    fst (Crud.GetUserByID (users_id_seq c + 1) c1) =
      Ok {| ID := users_id_seq c + 1; Name := varchar 100 (Name user);
            Email := varchar 100 (Email user);
            Balance := to_cents (Balance user) |} ∧
    ((chars (Name user) ≤ 100)%nat →
     (chars (Email user) ≤ 100)%nat →
     whole_cents (Balance user) →
     fst (Crud.GetUserByID (users_id_seq c + 1) c1) =
       Ok {| ID := users_id_seq c + 1; Name := Name user;
             Email := Email user; Balance := in_cents (Balance user) |}).
Proof.
  intros Hr0 Hr1 Hseq Hfree _. unfold Crud.InsertUser. rewrite Hr0.
  rewrite decide_False by (intros Hin; apply Hseq in Hin; lia).
  rewrite decide_False by done.
  eexists; split; [done|].
  unfold Crud.GetUserByID; cbn. rewrite Hr1. cbn.
  unfold GetUserByID; cbn. rewrite lookup_insert_eq. cbn.
  split; [done|]. intros Hn He Hw.
  by rewrite !varchar_short, to_cents_whole.
Qed.

Lemma InsertUser_then_GetUserByID_witness :
  ∃ c1,
    Crud.InsertUser charlie (pool (connect seed healthy) 4 healthy) = (None, c1) ∧
    fst (Crud.GetUserByID (users_id_seq (pool (connect seed healthy) 4 healthy) + 1) c1) =
      Ok {| ID := users_id_seq (pool (connect seed healthy) 4 healthy) + 1;
            Name := varchar 100 (Name charlie);
            Email := varchar 100 (Email charlie);
            Balance := to_cents (Balance charlie) |} ∧
    ((chars (Name charlie) ≤ 100)%nat →
     (chars (Email charlie) ≤ 100)%nat →
     whole_cents (Balance charlie) →
     fst (Crud.GetUserByID (users_id_seq (pool (connect seed healthy) 4 healthy) + 1) c1) =
       Ok {| ID := users_id_seq (pool (connect seed healthy) 4 healthy) + 1;
             Name := Name charlie; Email := Email charlie;
             Balance := in_cents (Balance charlie) |}).
Proof.
  apply (InsertUser_then_GetUserByID charlie (pool (connect seed healthy) 4 healthy)).
  - reflexivity.
  - reflexivity.
  - intros id [r Hr]. simpl in *. unfold seed in Hr.
    repeat (apply lookup_insert_Some in Hr as [[<- _]|[_ Hr]]; [lia|]).
    by rewrite lookup_empty in Hr.
  - apply (bool_decide_unpack (¬ email_taken (Email charlie) seed)).
    vm_compute. exact I.
  - unfold accepted. split; [vm_compute; lia|]. split; [vm_compute; lia|].
    vm_compute. reflexivity.
Defined.

(** X9: A second user with an email that is taken is turned down: [InsertUser]
    returns an error and the table is as before, whatever the sequence and
    the driver do. *)
Theorem InsertUser_duplicate_email user c :
  email_taken (Email user) (users (store c)) →
  is_Some (fst (Crud.InsertUser user c)) ∧
  users (store (snd (Crud.InsertUser user c))) = users (store c).
Proof.
  intros Htaken. unfold Crud.InsertUser.
  destruct (refuse c (served c)); cbn; [by eauto|].
  case_decide; cbn; [by eauto|].
  rewrite decide_True by done. cbn. by eauto.
Qed.

Lemma InsertUser_duplicate_email_witness :
  is_Some (fst (Crud.InsertUser (mkUser 0 "Johnny" "john.doe@example.com" 0)
                  (pool (connect seed healthy) 4 healthy))) ∧
  users (store (snd (Crud.InsertUser (mkUser 0 "Johnny" "john.doe@example.com" 0)
                       (pool (connect seed healthy) 4 healthy))))
    = users (store (pool (connect seed healthy) 4 healthy)).
Proof.
  apply (InsertUser_duplicate_email (mkUser 0 "Johnny" "john.doe@example.com" 0)
           (pool (connect seed healthy) 4 healthy)).
  exists 1, john. split; reflexivity.
Defined.

(** X10: With the sequence ahead of every [id], [InsertUser] fails for two reasons
    only, a statement the driver could not run or an email that is taken, and
    a failed insert changes no row. *)
Theorem InsertUser_error user c e :
  seq_ahead (users_id_seq c) (users (store c)) →
  fst (Crud.InsertUser user c) = Some e →
  users (store (snd (Crud.InsertUser user c))) = users (store c) ∧
  (refuse c (served c) = Some e ∨
   (e = pq_duplicate_key "users_email_key" ∧
    email_taken (Email user) (users (store c)))).
Proof.
  intros Hseq. unfold Crud.InsertUser.
  destruct (refuse c (served c)); cbn; [intros [= ->]; by eauto|].
  rewrite decide_False by (intros Hin; apply Hseq in Hin; lia).
  case_decide; cbn; [|done]. intros [= <-]. by eauto.
Qed.

Lemma InsertUser_error_witness :
  users (store (snd (Crud.InsertUser charlie (pool (connect seed healthy) 4
                                                (failing_at 0 bad_conn)))))
    = users (store (pool (connect seed healthy) 4 (failing_at 0 bad_conn))) ∧
  (refuse (pool (connect seed healthy) 4 (failing_at 0 bad_conn))
          (served (pool (connect seed healthy) 4 (failing_at 0 bad_conn)))
     = Some bad_conn ∨
   (bad_conn = pq_duplicate_key "users_email_key" ∧
    email_taken (Email charlie)
      (users (store (pool (connect seed healthy) 4 (failing_at 0 bad_conn)))))).
Proof.
  apply (InsertUser_error charlie
           (pool (connect seed healthy) 4 (failing_at 0 bad_conn)) bad_conn).
  - intros id [r Hr]. simpl in *. unfold seed in Hr.
    repeat (apply lookup_insert_Some in Hr as [[<- _]|[_ Hr]]; [lia|]).
    by rewrite lookup_empty in Hr.
  - reflexivity.
Defined.

(** X11: [InsertUser] never rewrites or removes a row that was there. *)
Theorem InsertUser_keeps_rows user c id r :
  users (store c) !! id = Some r →
  users (store (snd (Crud.InsertUser user c))) !! id = Some r.
Proof.
  intros Hr. unfold Crud.InsertUser.
  destruct (refuse c (served c)); cbn; [done|].
  case_decide as Hin; cbn; [done|]. case_decide; cbn; [done|].
  rewrite lookup_insert_ne; [done|]. intros <-. apply Hin. by eexists.
Qed.

Lemma InsertUser_keeps_rows_witness :
  users (store (snd (Crud.InsertUser charlie (pool (connect seed healthy) 4 healthy))))
    !! 1 = Some john.
Proof.
  apply (InsertUser_keeps_rows charlie (pool (connect seed healthy) 4 healthy) 1 john).
  reflexivity.
Defined.

(** X12: Two facts about the table that [InsertUser] keeps: every [id] is at most
    the sequence, and no two rows share an email. *)
Theorem InsertUser_invariants user c :
  seq_ahead (users_id_seq c) (users (store c)) →
  emails_unique (users (store c)) →
  seq_ahead (users_id_seq (snd (Crud.InsertUser user c)))
            (users (store (snd (Crud.InsertUser user c)))) ∧
  emails_unique (users (store (snd (Crud.InsertUser user c)))).
Proof.
  intros Hseq Huniq. unfold Crud.InsertUser.
  destruct (refuse c (served c)); cbn; [done|].
  assert (seq_ahead (users_id_seq c + 1) (users (store c))) as Hseq'.
  { intros id Hid. apply Hseq in Hid. lia. }
  case_decide as Hin; cbn; [done|]. case_decide as Hfree; cbn; [done|].
  split.
  - intros id [r [[<- _]|[_ Hr]]%lookup_insert_Some]; [lia|].
    apply Hseq'. by eexists.
  - intros i j ri rj [[<- <-]|[Hi Hri]]%lookup_insert_Some
                     [[<- <-]|[Hj Hrj]]%lookup_insert_Some He; cbn in *.
    + done.
    + exfalso. apply Hfree. by exists j, rj.
    + exfalso. apply Hfree. by exists i, ri.
    + by eapply Huniq.
Qed.

Lemma seed_emails_unique : emails_unique seed.
Proof.
  intros i j ri rj Hi Hj. unfold seed in Hi, Hj.
  repeat (apply lookup_insert_Some in Hi as [[<- <-]|[? Hi]];
          [repeat (apply lookup_insert_Some in Hj as [[<- <-]|[? Hj]];
                   [done|]);
           by rewrite lookup_empty in Hj|]).
  by rewrite lookup_empty in Hi.
Qed.

Lemma InsertUser_invariants_witness :
  seq_ahead (users_id_seq (snd (Crud.InsertUser charlie
                                  (pool (connect seed healthy) 4 healthy))))
            (users (store (snd (Crud.InsertUser charlie
                                  (pool (connect seed healthy) 4 healthy))))) ∧
  emails_unique (users (store (snd (Crud.InsertUser charlie
                                     (pool (connect seed healthy) 4 healthy))))).
Proof.
  apply (InsertUser_invariants charlie (pool (connect seed healthy) 4 healthy)).
  - simpl. exact seed_seq_ahead.
  - simpl. exact seed_emails_unique.
Defined.

(** X13: A transfer keeps emails unique, and every [id] at most the sequence: it
    touches balances only. *)
Theorem TransferBalance_keeps_schema fromID toID amount db n :
  seq_ahead n (users db) →
  emails_unique (users db) →
  seq_ahead n (users (snd (TransferBalance fromID toID amount db))) ∧
  emails_unique (users (snd (TransferBalance fromID toID amount db))).
Proof.
  intros Hseq Huniq. split.
  - intros id Hid. apply Hseq. apply elem_of_dom.
    rewrite <- (TransferBalance_same_ids fromID toID amount db).
    by apply elem_of_dom.
  - intros i j ri rj Hi Hj He.
    assert (∀ k r', users (snd (TransferBalance fromID toID amount db)) !! k = Some r' →
                    ∃ r, users db !! k = Some r ∧ email r = email r') as Hback.
    { intros k r' Hk.
      destruct (users db !! k) as [r|] eqn:Hr.
      - destruct (TransferBalance_only_balance fromID toID amount db k r Hr) as [b Hb].
        rewrite Hb in Hk. simplify_eq. by exists r.
      - assert (k ∈ dom (users db)) as Hdom.
        { rewrite <- (TransferBalance_same_ids fromID toID amount db).
          apply elem_of_dom. by eexists. }
        apply elem_of_dom in Hdom as [? ?]. congruence. }
    destruct (Hback i ri Hi) as (ri0 & Hi0 & Hei).
    destruct (Hback j rj Hj) as (rj0 & Hj0 & Hej).
    apply (Huniq i j ri0 rj0 Hi0 Hj0). congruence.
Qed.

Lemma TransferBalance_keeps_schema_witness :
  seq_ahead 4 (users (snd (TransferBalance 1 2 10000 (connect seed healthy)))) ∧
  emails_unique (users (snd (TransferBalance 1 2 10000 (connect seed healthy)))).
Proof.
  apply (TransferBalance_keeps_schema 1 2 10000 (connect seed healthy) 4).
  - simpl. exact seed_seq_ahead.
  - simpl. exact seed_emails_unique.
Defined.

(** ** Listing users *)

#[global] Instance by_id_total : Total by_id.
Proof. intros x y. unfold by_id. lia. Qed.

#[global] Instance by_id_transitive : Transitive by_id.
Proof. intros x y z. unfold by_id. lia. Qed.

Lemma by_id_strict (l : list (Z * Row)) :
  StronglySorted by_id l → NoDup l.*1 → StronglySorted Z.lt l.*1.
Proof.
  induction 1 as [|x l Hl IH Hx]; csimpl; [constructor|].
  intros [Hnotin Hnd]%NoDup_cons. constructor; [by apply IH|].
  apply Forall_fmap, Forall_forall. intros y Hy. cbn.
  rewrite Forall_forall in Hx. specialize (Hx y Hy). unfold by_id in Hx.
  assert (x.1 ≠ y.1); [|lia].
  intros Heq. apply Hnotin. rewrite Heq. apply list_elem_of_fmap. by exists y.
Qed.

Lemma listing_lookup (t : gmap Z Row) k r :
  (k, r) ∈ merge_sort by_id (map_to_list t) ↔ t !! k = Some r.
Proof. by rewrite merge_sort_Permutation, elem_of_map_to_list. Qed.

Lemma listing_ids (l : list (Z * Row)) :
  ID <$> (uncurry user_of_row <$> l) = l.*1.
Proof. rewrite <- list_fmap_compose. apply list_fmap_ext. by intros ? [??]. Qed.

(** X14: [GetAllUsers], when the statement is answered, returns the users by
    strictly increasing [ID]; a user is in the list exactly when
    [GetUserByID] finds that very user under its [ID]; and the list has one
    entry per row. *)
Theorem GetAllUsers_sorted_complete c :
  refuse c (served c) = None →
  ∃ us,
    fst (Crud.GetAllUsers c) = Ok us ∧
    StronglySorted Z.lt (ID <$> us) ∧
    (∀ u, u ∈ us ↔ GetUserByID (ID u) (store c) = Ok u) ∧
    length us = size (users (store c)).
Proof.
  intros Hr. unfold Crud.GetAllUsers. rewrite Hr. cbn.
  eexists; split; [done|]. split; [|split].
  - rewrite listing_ids. apply by_id_strict.
    + apply StronglySorted_merge_sort; apply _.
    + rewrite merge_sort_Permutation. apply NoDup_fst_map_to_list.
  - intros u. rewrite list_elem_of_fmap. unfold GetUserByID. split.
    + intros ([k r] & -> & Hin). apply listing_lookup in Hin. cbn.
      by rewrite Hin.
    + destruct (users (store c) !! ID u) as [r|] eqn:Hlook; [|done].
      intros [= Hu]. exists (ID u, r). split; [by rewrite <- Hu|].
      by apply listing_lookup.
  - rewrite length_fmap, merge_sort_Permutation. apply length_map_to_list.
Qed.

Lemma GetAllUsers_sorted_complete_witness :
  ∃ us,
    fst (Crud.GetAllUsers (pool (connect seed healthy) 4 healthy)) = Ok us ∧
    StronglySorted Z.lt (ID <$> us) ∧
    (∀ u, u ∈ us ↔
          GetUserByID (ID u) (store (pool (connect seed healthy) 4 healthy)) = Ok u) ∧
    length us = size (users (store (pool (connect seed healthy) 4 healthy))).
Proof.
  apply (GetAllUsers_sorted_complete (pool (connect seed healthy) 4 healthy)).
  reflexivity.
Defined.

Lemma listing_unique (t : gmap Z Row) (l : list (Z * Row)) :
  StronglySorted by_id l →
  l ≡ₚ map_to_list t →
  l = merge_sort by_id (map_to_list t).
Proof.
  intros Hsorted Hperm. apply (StronglySorted_unique_strong by_id).
  - intros [k1 r1] [k2 r2] H1 H2 H12 H21. unfold by_id in *; cbn in *.
    assert (k1 = k2) as -> by lia. f_equal.
    rewrite Hperm in H1. rewrite merge_sort_Permutation in H2.
    exact (map_to_list_unique t _ _ _ H1 H2).
  - done.
  - apply StronglySorted_merge_sort; apply _.
  - by rewrite merge_sort_Permutation.
Qed.

(** X15: A new user is listed last: after an [InsertUser] that succeeded, with the
    sequence ahead of every [id] and values the columns accept,
    [GetAllUsers] returns what it would have returned before, followed by the
    new user under the new [id], with the name and the email as [VARCHAR(100)]
    keeps them and the balance rounded to the cent. *)
Theorem GetAllUsers_after_InsertUser user c us :
  refuse c (served c) = None →
  refuse c (S (served c)) = None →
  seq_ahead (users_id_seq c) (users (store c)) →
  ¬ email_taken (Email user) (users (store c)) →
  accepted user →
  fst (Crud.GetAllUsers c) = Ok us →
  fst (Crud.GetAllUsers (snd (Crud.InsertUser user c))) =
    Ok (us ++ [{| ID := users_id_seq c + 1; Name := varchar 100 (Name user);
                  Email := varchar 100 (Email user);
                  Balance := to_cents (Balance user) |}]).
Proof.
  intros Hr0 Hr1 Hseq Hfree _. unfold Crud.InsertUser, Crud.GetAllUsers.
  rewrite Hr0. cbn. intros [= <-].
  assert (users (store c) !! (users_id_seq c + 1) = None) as Hnone.
  { apply eq_None_not_Some. intros Hin. apply Hseq in Hin. lia. }
  rewrite decide_False by (by rewrite Hnone; intros [? ?]).
  rewrite decide_False by done. cbn. rewrite Hr1. cbn. f_equal.
  rewrite <- (listing_unique _
    (merge_sort by_id (map_to_list (users (store c))) ++
     [(users_id_seq c + 1, row_of_user user)])).
  - by rewrite fmap_app.
  - apply StronglySorted_app_2.
    + intros [k r] [k' r'] Hin [= -> ->]%list_elem_of_singleton.
      apply listing_lookup in Hin. unfold by_id; cbn.
      assert (k ≤ users_id_seq c) by (apply Hseq; by eexists). lia.
    + apply StronglySorted_merge_sort; apply _.
    + repeat constructor.
  - rewrite map_to_list_insert by done.
    rewrite merge_sort_Permutation. by rewrite (comm (++)).
Qed.

Lemma GetAllUsers_after_InsertUser_witness :
  fst (Crud.GetAllUsers (snd (Crud.InsertUser charlie
                                (pool (connect seed healthy) 4 healthy)))) =
    Ok ([mkUser 1 "John Doe" "john.doe@example.com" 100000;
         mkUser 2 "Jane Smith" "jane.smith@example.com" 150000;
         mkUser 3 "Bob Johnson" "bob.johnson@example.com" 75000;
         mkUser 4 "Alice Brown" "alice.brown@example.com" 200000] ++
        [{| ID := users_id_seq (pool (connect seed healthy) 4 healthy) + 1;
            Name := varchar 100 (Name charlie);
            Email := varchar 100 (Email charlie);
            Balance := to_cents (Balance charlie) |}]).
Proof.
  apply (GetAllUsers_after_InsertUser charlie (pool (connect seed healthy) 4 healthy)).
  - reflexivity.
  - reflexivity.
  - intros id [r Hr]. simpl in *. unfold seed in Hr.
    repeat (apply lookup_insert_Some in Hr as [[<- _]|[_ Hr]]; [lia|]).
    by rewrite lookup_empty in Hr.
  - apply (bool_decide_unpack (¬ email_taken (Email charlie) seed)).
    vm_compute. exact I.
  - unfold accepted. split; [vm_compute; lia|]. split; [vm_compute; lia|].
    vm_compute. reflexivity.
  - vm_compute. reflexivity.
Defined.

Lemma listing_identity (t t' : gmap Z Row) :
  dom t' = dom t →
  (∀ k r, t !! k = Some r → ∃ b, t' !! k = Some (set_balance r b)) →
  identity <$> (uncurry user_of_row <$> merge_sort by_id (map_to_list t')) =
  identity <$> (uncurry user_of_row <$> merge_sort by_id (map_to_list t)).
Proof.
  intros Hdom Hrows.
  set (g := λ kr : Z * Row, (kr.1, default kr.2 (t' !! kr.1))).
  set (l := merge_sort by_id (map_to_list t)).
  assert (∀ k r, (k, r) ∈ l → ∃ b, g (k, r) = (k, set_balance r b) ∧
                                   t' !! k = Some (set_balance r b)) as Hg.
  { intros k r Hin%listing_lookup. destruct (Hrows k r Hin) as [b Hb].
    exists b. unfold g; cbn. by rewrite Hb. }
  rewrite <- (listing_unique t' (g <$> l)).
  - rewrite <- !list_fmap_compose. apply Forall_fmap_ext, Forall_forall.
    intros [k r] Hin. cbn. destruct (Hg k r Hin) as (b & Hgb & _).
    unfold g in Hgb; cbn in Hgb. injection Hgb as ->. done.
  - apply (StronglySorted_fmap g by_id by_id); [by intros [??] [??]|].
    apply StronglySorted_merge_sort; apply _.
  - apply NoDup_Permutation.
    + apply (NoDup_fmap_1 fst). rewrite <- list_fmap_compose.
      change (fst ∘ g) with (fst : Z * Row → Z). subst l.
      rewrite merge_sort_Permutation. apply NoDup_fst_map_to_list.
    + apply NoDup_map_to_list.
    + intros [k r']. rewrite list_elem_of_fmap, elem_of_map_to_list. split.
      * intros ([k0 r] & Heq & Hin). destruct (Hg k0 r Hin) as (b & Hgb & Hb).
        rewrite Hgb in Heq. by simplify_eq.
      * intros Hk.
        assert (k ∈ dom t) as [r Hr]%elem_of_dom
          by (rewrite <- Hdom; apply elem_of_dom; by eexists).
        exists (k, r). split; [|by apply listing_lookup].
        unfold g; cbn. by rewrite Hk.
Qed.

(** X16: A transfer does not change who is listed: [GetAllUsers] after any
    [TransferBalance] returns users with the same [ID], [Name] and [Email], in
    the same order, as it would have returned before. *)
Theorem GetAllUsers_after_TransferBalance fromID toID amount c us :
  refuse c (served c) = None →
  fst (Crud.GetAllUsers c) = Ok us →
  ∃ us',
    fst (Crud.GetAllUsers
           (with_store (snd (TransferBalance fromID toID amount (store c))) c))
      = Ok us' ∧
    identity <$> us' = identity <$> us.
Proof.
  intros Hr. unfold Crud.GetAllUsers, with_store; cbn. rewrite Hr; cbn.
  intros [= <-]. eexists; split; [done|].
  apply listing_identity.
  - apply TransferBalance_same_ids.
  - intros k r Hk. by apply TransferBalance_only_balance.
Qed.

Lemma GetAllUsers_after_TransferBalance_witness :
  ∃ us',
    fst (Crud.GetAllUsers
           (with_store (snd (TransferBalance 1 2 10000
                               (store (pool (connect seed healthy) 4 healthy))))
                       (pool (connect seed healthy) 4 healthy)))
      = Ok us' ∧
    identity <$> us' =
    identity <$> [mkUser 1 "John Doe" "john.doe@example.com" 100000;
                  mkUser 2 "Jane Smith" "jane.smith@example.com" 150000;
                  mkUser 3 "Bob Johnson" "bob.johnson@example.com" 75000;
                  mkUser 4 "Alice Brown" "alice.brown@example.com" 200000].
Proof.
  apply (GetAllUsers_after_TransferBalance 1 2 10000
           (pool (connect seed healthy) 4 healthy)).
  - reflexivity.
  - vm_compute. reflexivity.
Defined.

(** ** The seed statement *)

Lemma email_taken_insert e id r (t : gmap Z Row) :
  t !! id = None → email_taken e t → email_taken e (<[id := r]> t).
Proof. intros Hnone. by apply map_Exists_insert_2_2. Qed.

Lemma insert_do_nothing_runs rows seq (t : gmap Z Row) :
  seq_ahead seq t →
  ∃ t',
    insert_do_nothing rows seq t = (seq + Z.of_nat (length rows), Some t') ∧
    seq_ahead (seq + Z.of_nat (length rows)) t' ∧
    t ⊆ t' ∧
    (∀ e, email_taken e t → email_taken e t') ∧
    Forall (λ r, email_taken (email r) t') rows.
Proof.
  revert seq t. induction rows as [|r rows IH]; intros seq t Hseq; cbn.
  { exists t. rewrite Z.add_0_r. by repeat split. }
  replace (seq + Z.of_nat (S (length rows))) with (seq + 1 + Z.of_nat (length rows)) by lia.
  assert (seq_ahead (seq + 1) t) as Hseq1.
  { intros id Hid. apply Hseq in Hid. lia. }
  case_decide as Htaken.
  - destruct (IH (seq + 1) t Hseq1) as (t' & -> & ? & ? & Hmono & ?).
    exists t'. repeat split; try done. constructor; [by apply Hmono|done].
  - assert (t !! (seq + 1) = None) as Hnone.
    { apply eq_None_not_Some. intros Hin. apply Hseq in Hin. lia. }
    rewrite decide_False by (by rewrite Hnone; intros [? ?]).
    destruct (IH (seq + 1) (<[seq + 1 := stored r]> t))
      as (t' & -> & ? & Hsub & Hmono & ?).
    { intros id [r' [[<- _]|[_ Hr']]%lookup_insert_Some]; [lia|].
      apply Hseq1. by eexists. }
    exists t'. repeat split; try done.
    + etrans; [|exact Hsub]. by apply insert_subseteq.
    + intros e He. by apply Hmono, email_taken_insert.
    + constructor; [|done]. apply Hmono. exists (seq + 1), (stored r).
      by rewrite lookup_insert_eq.
Qed.

Lemma insert_do_nothing_skips rows seq (t : gmap Z Row) :
  Forall (λ r, email_taken (email r) t) rows →
  insert_do_nothing rows seq t = (seq + Z.of_nat (length rows), Some t).
Proof.
  intros Hall. revert seq. induction Hall as [|r rows Hr _ IH]; intros seq; cbn.
  { by rewrite Z.add_0_r. }
  rewrite decide_True by done. rewrite IH. f_equal. lia.
Qed.

(** X17: Running the seed statement a second time changes nothing: on a table
    whose [id]s are at most the sequence, the statement succeeds, leaves every
    row that was there, and a second run succeeds and gives the same table.
    This holds for any list of rows, and so for the four of the script. *)
Theorem seed_statement_idempotent rows seq (t : gmap Z Row) :
  seq_ahead seq t →
  ∃ seq1 t1,
    insert_do_nothing rows seq t = (seq1, Some t1) ∧
    t ⊆ t1 ∧
    insert_do_nothing rows seq1 t1 = (seq1 + Z.of_nat (length rows), Some t1).
Proof.
  intros Hseq.
  destruct (insert_do_nothing_runs rows seq t Hseq) as (t1 & Hrun & _ & Hsub & _ & Hall).
  exists (seq + Z.of_nat (length rows)), t1. split; [done|]. split; [done|].
  by apply insert_do_nothing_skips.
Qed.

Lemma seed_statement_idempotent_witness :
  ∃ seq1 t1,
    insert_do_nothing seed_rows 1 {[ 1 := jane ]} = (seq1, Some t1) ∧
    {[ 1 := jane ]} ⊆ t1 ∧
    insert_do_nothing seed_rows seq1 t1 = (seq1 + Z.of_nat (length seed_rows), Some t1).
Proof.
  apply (seed_statement_idempotent seed_rows 1 {[ 1 := jane ]}).
  intros id [r Hr]. apply lookup_singleton_Some in Hr as [<- _]. lia.
Defined.

(** ** The substring test *)

Example contains_UNIQUE :
  contains (String.list_ascii_of_string "email TEXT NOT NULL UNIQUE,")
           (String.list_ascii_of_string "UNIQUE") = Some true ∧
  contains (String.list_ascii_of_string "name TEXT NOT NULL")
           (String.list_ascii_of_string "UNIQUE") = Some false.
Proof. by vm_compute. Qed.

Lemma occurs_in_at (substr s : bytes) :
  occurs_in substr s ↔ occurs_at substr s.
Proof.
  unfold occurs_at. split.
  - intros (before & after & ->). exists (length before). split.
    + rewrite !length_app. lia.
    + rewrite drop_app_length. by rewrite take_app_length.
  - intros (j & Hj & Heq). exists (take j s), (drop (length substr) (drop j s)).
    rewrite <- Heq at 1. by rewrite take_drop, take_drop.
Qed.

Lemma slice_in_range (s : bytes) (i m : nat) :
  (i + m ≤ length s)%nat →
  slice s (Z.of_nat i) (Z.of_nat i + Z.of_nat m) = Some (take m (drop i s)).
Proof.
  intros Hle. unfold slice, len. rewrite decide_True by lia.
  do 2 f_equal; [lia|]. f_equal. lia.
Qed.

Lemma containsSubstring_from_spec (n i : nat) (s substr : bytes) :
  (i + n + length substr ≤ length s + 1)%nat →
  ∃ b, containsSubstring_from n (Z.of_nat i) s substr = Some b ∧
       (b = true ↔ ∃ j : nat, (i ≤ j < i + n)%nat ∧
                              take (length substr) (drop j s) = substr).
Proof.
  revert i. induction n as [|n IH]; intros i Hle; cbn.
  { exists false. split; [done|]. split; [done|]. intros (j & ? & _). lia. }
  unfold len at 1. rewrite slice_in_range by lia.
  case_decide as Heq.
  - exists true. split; [done|]. split; [|done]. intros _. exists i. split; [lia|done].
  - replace (Z.of_nat i + 1) with (Z.of_nat (S i)) by lia.
    destruct (IH (S i)) as (b & -> & Hb); [lia|]. exists b. split; [done|].
    rewrite Hb. split.
    + intros (j & ? & ?). exists j. split; [lia|done].
    + intros (j & ? & Hj). destruct (decide (j = i)) as [->|]; [done|].
      exists j. split; [lia|done].
Qed.

Lemma containsSubstring_at (s substr : bytes) :
  ∃ b, containsSubstring s substr = Some b ∧ (b = true ↔ occurs_at substr s).
Proof.
  unfold containsSubstring, len, occurs_at.
  destruct (decide (length substr ≤ length s)%nat) as [Hle|Hgt].
  - destruct (containsSubstring_from_spec (length s - length substr + 1) 0 s substr)
      as (b & Hrun & Hb); [lia|].
    exists b. split.
    + rewrite <- Hrun. f_equal. lia.
    + rewrite Hb. split; intros (j & ? & ?); exists j; (split; [lia|done]).
  - exists false. replace (Z.to_nat _) with 0%nat by lia. split; [done|].
    split; [done|]. intros (j & ? & _). lia.
Qed.

Lemma slice_prefix (s substr : bytes) :
  (length substr ≤ length s)%nat →
  slice s 0 (len substr) = Some (take (length substr) s).
Proof.
  intros Hle. unfold slice, len. rewrite decide_True by lia. cbn.
  do 2 f_equal. lia.
Qed.

Lemma slice_suffix (s substr : bytes) :
  (length substr ≤ length s)%nat →
  slice s (len s - len substr) (len s) =
    Some (drop (length s - length substr) s).
Proof.
  intros Hle. unfold slice, len. rewrite decide_True by lia. f_equal.
  replace (Z.to_nat (Z.of_nat (length s) - (Z.of_nat (length s) - Z.of_nat (length substr))))
    with (length substr) by lia.
  replace (Z.to_nat (Z.of_nat (length s) - Z.of_nat (length substr)))
    with (length s - length substr)%nat by lia.
  apply take_ge. rewrite length_drop. lia.
Qed.

Lemma contains_at (s substr : bytes) :
  ∃ b, contains s substr = Some b ∧ (b = true ↔ occurs_at substr s).
Proof.
  unfold contains, len.
  case_decide as Hlen.
  - case_decide as Heq.
    { exists true. split; [done|]. split; [|done]. intros _.
      exists 0%nat. subst. split; [cbn; lia|]. by rewrite drop_0, take_ge. }
    case_decide as Hlt.
    + fold (len substr). fold (len s).
      rewrite slice_prefix, slice_suffix by lia.
      case_decide as Hpre.
      { exists true. split; [done|]. split; [|done]. intros _.
        exists 0%nat. split; [cbn; lia|by rewrite drop_0]. }
      case_decide as Hsuf.
      { exists true. split; [done|]. split; [|done]. intros _.
        exists (length s - length substr)%nat. split; [lia|].
        rewrite Hsuf. by rewrite take_ge. }
      apply containsSubstring_at.
    + exists false. split; [done|]. split; [done|].
      intros (j & Hj & Hat). exfalso. apply Heq.
      assert (j = 0%nat) as -> by lia. rewrite drop_0 in Hat.
      rewrite take_ge in Hat by lia. done.
  - exists false. split; [done|]. split; [done|].
    intros (j & Hj & _). lia.
Qed.

(** X18: [containsSubstring] never panics and answers [true] exactly when the
    second string occurs in the first; so it answers [false], with no
    iteration, when the second string is the longer one, and [true] for the
    empty string. *)
Theorem containsSubstring_spec (s substr : bytes) :
  ∃ b, containsSubstring s substr = Some b ∧ (b = true ↔ occurs_in substr s).
Proof.
  destruct (containsSubstring_at s substr) as (b & Hrun & Hb).
  exists b. split; [done|]. rewrite Hb. symmetry. apply occurs_in_at.
Qed.

(** X19: [contains] never panics, although it slices its first argument twice, and
    answers [true] exactly when the second string occurs in the first. *)
Theorem contains_spec (s substr : bytes) :
  ∃ b, contains s substr = Some b ∧ (b = true ↔ occurs_in substr s).
Proof.
  destruct (contains_at s substr) as (b & Hrun & Hb).
  exists b. split; [done|]. rewrite Hb. symmetry. apply occurs_in_at.
Qed.

(** X20: The shortcuts of [contains] change nothing: for all arguments it returns
    what [containsSubstring] alone returns. *)
Theorem contains_is_containsSubstring (s substr : bytes) :
  contains s substr = containsSubstring s substr.
Proof.
  destruct (contains_at s substr) as (b & -> & Hb).
  destruct (containsSubstring_at s substr) as (b' & -> & Hb').
  f_equal. destruct b, b'; try done.
  - symmetry. apply Hb'. by apply Hb.
  - apply Hb. by apply Hb'.
Qed.

(** ** The API key in front of [/user] *)

Example Atoi_examples :
  Atoi "123" = Some 123 ∧ Atoi "-5" = Some (-5) ∧ Atoi "+7" = Some 7 ∧
  Atoi "" = None ∧ Atoi "-" = None ∧ Atoi "12a" = None ∧ Atoi " 1" = None ∧
  Atoi "9223372036854775807" = Some 9223372036854775807 ∧
  Atoi "9223372036854775808" = None.
Proof. by vm_compute. Qed.

(** X21: Without the right [X-API-Key] the request never reaches the handler
    behind [APIKeyMiddleware]: on a response not yet started the client gets
    status 401 with the JSON error [unauthorized], the request is logged, and
    the outcome is the same whatever handler was wrapped. *)
Theorem APIKeyMiddleware_rejects next r s :
  HeaderGet r "X-API-Key" ≠ "secret123" →
  status (writer s) = None →
  status (writer (Api.APIKeyMiddleware next r s)) = Some 401 ∧
  headers (writer (Api.APIKeyMiddleware next r s)) !! "Content-Type"
    = Some "application/json" ∧
  chunks (writer (Api.APIKeyMiddleware next r s)) =
    chunks (writer s) ++ [Json (JObject [("error", JString "unauthorized")])] ∧
  logs (Api.APIKeyMiddleware next r s) = logs s ++ [Method r +:+ " " +:+ Path r] ∧
  ∀ next', Api.APIKeyMiddleware next' r s = Api.APIKeyMiddleware next r s.
Proof.
  intros Hkey Hfresh. unfold Api.APIKeyMiddleware.
  rewrite !decide_True by done.
  unfold respond, Printf, Api.jsonError, Encode, Write, WriteHeader, Set_; cbn.
  rewrite Hfresh; cbn.
  split; [done|]. split; [apply lookup_insert_eq|]. split; [done|]. split; [done|].
  intros next'. by rewrite decide_True by done.
Qed.

Lemma APIKeyMiddleware_rejects_witness :
  status (writer (Api.APIKeyMiddleware (λ _ s, s) anonymous_get fresh)) = Some 401 ∧
  headers (writer (Api.APIKeyMiddleware (λ _ s, s) anonymous_get fresh)) !! "Content-Type"
    = Some "application/json" ∧
  chunks (writer (Api.APIKeyMiddleware (λ _ s, s) anonymous_get fresh)) =
    chunks (writer fresh) ++ [Json (JObject [("error", JString "unauthorized")])] ∧
  logs (Api.APIKeyMiddleware (λ _ s, s) anonymous_get fresh)
    = logs fresh ++ [Method anonymous_get +:+ " " +:+ Path anonymous_get] ∧
  ∀ next', Api.APIKeyMiddleware next' anonymous_get fresh
           = Api.APIKeyMiddleware (λ _ s, s) anonymous_get fresh.
Proof.
  apply (APIKeyMiddleware_rejects (λ _ s, s) anonymous_get fresh).
  - vm_compute. discriminate.
  - reflexivity.
Defined.

(** X22: Whatever the request and whatever the body decodes to, the handler of
    [/user] answers with one JSON object, [Content-Type: application/json],
    and one of the statuses 200, 201, 400, 401 and 405; and it logs the
    request once. *)
Theorem user_handler_always_json Decode r :
  headers (writer (Api.user_handler Decode r fresh)) !! "Content-Type"
    = Some "application/json" ∧
  logs (Api.user_handler Decode r fresh) = [Method r +:+ " " +:+ Path r] ∧
  ∃ code fields,
    status (writer (Api.user_handler Decode r fresh)) = Some code ∧
    chunks (writer (Api.user_handler Decode r fresh)) = [Json (JObject fields)] ∧
    code ∈ [200; 201; 400; 401; 405].
Proof.
  unfold Api.user_handler, Api.APIKeyMiddleware, Api.getUserHandler,
    Api.postUserHandler, Api.JSONError, Api.jsonError,
    respond, Printf, Encode, Write, WriteHeader, Set_, fresh.
  cbn. repeat (case_decide || case_match); simplify_eq/=;
    (split; [apply lookup_insert_eq|]); (split; [done|]);
    eexists _, _; (split; [done|]); (split; [done|]); set_solver.
Qed.

(** X23: With the right key, [GET /user] answers 200 exactly when the [id]
    parameter is a decimal number above zero, and then echoes that number;
    every other [id] gets 400 [invalid id]. *)
Theorem user_handler_get Decode r :
  HeaderGet r "X-API-Key" = "secret123" →
  Method r = "GET" →
  match Atoi (QueryGet r "id") with
  | Some id =>
      if decide (0 < id)
      then status (writer (Api.user_handler Decode r fresh)) = Some 200 ∧
           chunks (writer (Api.user_handler Decode r fresh))
             = [Json (JObject [("user_id", JInt id)])]
      else status (writer (Api.user_handler Decode r fresh)) = Some 400 ∧
           chunks (writer (Api.user_handler Decode r fresh))
             = [Json (JObject [("error", JString "invalid id")])]
  | None =>
      status (writer (Api.user_handler Decode r fresh)) = Some 400 ∧
      chunks (writer (Api.user_handler Decode r fresh))
        = [Json (JObject [("error", JString "invalid id")])]
  end.
Proof.
  intros Hkey Hget.
  unfold Api.user_handler, Api.APIKeyMiddleware, Api.getUserHandler.
  rewrite decide_False by (by rewrite Hkey; intros []).
  rewrite decide_True by done.
  destruct (Atoi (QueryGet r "id")) as [id|]; [|done].
  repeat case_decide; try lia; done.
Qed.

Lemma user_handler_get_witness :
  status (writer (Api.user_handler no_decoder keyed_get fresh)) = Some 200 ∧
  chunks (writer (Api.user_handler no_decoder keyed_get fresh))
    = [Json (JObject [("user_id", JInt 7)])].
Proof.
  apply (user_handler_get no_decoder keyed_get).
  - reflexivity.
  - reflexivity.
Defined.

(** ** The users listing: query text and arguments *)

Example build_query_all_parameters :
  Orders.build_query "Almaty" "10" "20" =
  (Orders.select_users +:+ " WHERE u.city = $1" +:+
   " GROUP BY u.id, u.name, u.city" +:+
   " ORDER BY total_orders DESC, u.id DESC" +:+ " LIMIT $2" +:+ " OFFSET $3",
   [Orders.ArgText "Almaty"; Orders.ArgInt 10; Orders.ArgInt 20]).
Proof. by vm_compute. Qed.

Lemma Atoi_empty : Atoi "" = None.
Proof. done. Qed.

Lemma build_query_text city limitStr offsetStr :
  (Orders.build_query city limitStr offsetStr).1 =
  (Orders.build_query (if decide (city = "") then "" else "x")
                      (if limit_used limitStr then "1" else "")
                      (if offset_used offsetStr then "0" else "")).1.
Proof.
  unfold Orders.build_query, limit_used, offset_used.
  destruct (decide (city = "")) as [->|Hc];
    [rewrite (decide_False (P := "" ≠ "")) by (by intros [])
    |rewrite (decide_True (P := city ≠ "")) by done];
  (destruct (decide (limitStr = "")) as [->|Hl];
    [rewrite (decide_False (P := "" ≠ "")) by (by intros []); rewrite Atoi_empty
    |rewrite (decide_True (P := limitStr ≠ "")) by done;
     destruct (Atoi limitStr) as [n|]; [case_bool_decide|];
     rewrite ?decide_True, ?decide_False by done]);
  (destruct (decide (offsetStr = "")) as [->|Ho];
    [rewrite (decide_False (P := "" ≠ "")) by (by intros []); rewrite Atoi_empty
    |rewrite (decide_True (P := offsetStr ≠ "")) by done;
     destruct (Atoi offsetStr) as [m|]; [case_bool_decide|];
     rewrite ?decide_True, ?decide_False by done]);
  by vm_compute.
Qed.

(** X24: What the client sends never becomes part of the SQL text: the text depends
    only on whether a city was given, whether [limit] is a number above zero
    and whether [offset] is a number not below zero. *)
Theorem build_query_text_fixed city limitStr offsetStr city' limitStr' offsetStr' :
  (city = "" ↔ city' = "") →
  limit_used limitStr = limit_used limitStr' →
  offset_used offsetStr = offset_used offsetStr' →
  (Orders.build_query city limitStr offsetStr).1 =
  (Orders.build_query city' limitStr' offsetStr').1.
Proof.
  intros Hc Hl Ho.
  rewrite (build_query_text city), (build_query_text city'), Hl, Ho.
  by repeat case_decide; try tauto.
Qed.

Lemma build_query_text_fixed_witness :
  (Orders.build_query "Almaty" "10" "0").1 =
  (Orders.build_query "x'; DROP TABLE users; --" "+7" "20").1.
Proof.
  apply (build_query_text_fixed "Almaty" "10" "0" "x'; DROP TABLE users; --" "+7" "20").
  - split; discriminate.
  - reflexivity.
  - reflexivity.
Defined.

(** X25: The placeholders of the query text are [$1], [$2], ... in this order, one
    per argument handed to the database. *)
Theorem build_query_placeholders city limitStr offsetStr :
  placeholders (Orders.build_query city limitStr offsetStr).1 =
  seq 1 (length (Orders.build_query city limitStr offsetStr).2).
Proof.
  rewrite build_query_text.
  unfold Orders.build_query at 2. unfold limit_used, offset_used.
  destruct (decide (city = "")) as [->|Hc];
    [rewrite (decide_False (P := "" ≠ "")) by (by intros [])
    |rewrite (decide_True (P := city ≠ "")) by done];
  (destruct (decide (limitStr = "")) as [->|Hl];
    [rewrite (decide_False (P := "" ≠ "")) by (by intros []); rewrite Atoi_empty
    |rewrite (decide_True (P := limitStr ≠ "")) by done;
     destruct (Atoi limitStr) as [n|]; [case_bool_decide|];
     rewrite ?decide_True, ?decide_False by done]);
  (destruct (decide (offsetStr = "")) as [->|Ho];
    [rewrite (decide_False (P := "" ≠ "")) by (by intros []); rewrite Atoi_empty
    |rewrite (decide_True (P := offsetStr ≠ "")) by done;
     destruct (Atoi offsetStr) as [m|]; [case_bool_decide|];
     rewrite ?decide_True, ?decide_False by done]);
  by vm_compute.
Qed.

(** ** The users listing: responses *)

Lemma foldl_append_user (us : list Orders.User) (acc : option (list Orders.User)) :
  foldl Orders.append_user acc us =
  match us with [] => acc | _ => Some (default [] acc ++ us) end.
Proof.
  revert acc. induction us as [|u us IH]; intros acc; [done|].
  cbn. rewrite IH. destruct us; cbn; [done|].
  by rewrite <- app_assoc.
Qed.

(** X26: When the database returns its rows, a [GET] is answered 200 with one JSON
    array holding one object per row, in the order of the rows; with no rows
    the body is the empty array, not [null].  Exactly one query was sent, the
    one built from the three parameters. *)
Theorem getUsersHandler_rows db elapsed r st scanned :
  Method r = "GET" →
  status (writer (Orders.server st)) = None →
  db (Orders.build_query (QueryGet r "city") (QueryGet r "limit")
                         (QueryGet r "offset")).1
     (Orders.build_query (QueryGet r "city") (QueryGet r "limit")
                         (QueryGet r "offset")).2 = Orders.Rows scanned →
  let st' := Orders.getUsersHandler db elapsed r st in
  status (writer (Orders.server st')) = Some 200 ∧
  headers (writer (Orders.server st')) !! "Content-Type" = Some "application/json" ∧
  chunks (writer (Orders.server st')) =
    chunks (writer (Orders.server st)) ++
    [Json (JArray (Orders.encode_user <$> scanned))] ∧
  Orders.sent st' = Orders.sent st ++
    [Orders.build_query (QueryGet r "city") (QueryGet r "limit") (QueryGet r "offset")].
Proof.
  intros Hget Hfresh Hdb. cbn zeta. unfold Orders.getUsersHandler.
  rewrite decide_False by (by rewrite Hget; intros []).
  destruct (Orders.build_query _ _ _) as [query args]; cbn in Hdb.
  rewrite Hdb, foldl_append_user.
  unfold Orders.on_server, respond, Encode, Write, Set_; cbn.
  rewrite Hfresh; cbn.
  split; [done|]. split.
  { rewrite lookup_insert_ne by done. apply lookup_insert_eq. }
  split; [|done]. by destruct scanned.
Qed.

Lemma getUsersHandler_rows_witness :
  let st' := Orders.getUsersHandler (λ _ _, Orders.Rows []) 1234
               (listing_request "" "" "") started in
  status (writer (Orders.server st')) = Some 200 ∧
  headers (writer (Orders.server st')) !! "Content-Type" = Some "application/json" ∧
  chunks (writer (Orders.server st')) =
    chunks (writer (Orders.server started)) ++
    [Json (JArray (Orders.encode_user <$> []))] ∧
  Orders.sent st' = Orders.sent started ++
    [Orders.build_query (QueryGet (listing_request "" "" "") "city")
                        (QueryGet (listing_request "" "" "") "limit")
                        (QueryGet (listing_request "" "" "") "offset")].
Proof.
  apply (getUsersHandler_rows (λ _ _, Orders.Rows []) 1234
           (listing_request "" "" "") started []).
  - reflexivity.
  - reflexivity.
  - reflexivity.
Defined.

(** X27: When the query fails, or a row cannot be scanned, or the iteration ends
    with an error, a [GET] is answered 500 with the plain text [Internal
    server error] and nothing else, so no part of the rows read so far is
    sent; the error is logged in one line. *)
Theorem getUsersHandler_failure db elapsed r st :
  Method r = "GET" →
  status (writer (Orders.server st)) = None →
  (∀ scanned,
     db (Orders.build_query (QueryGet r "city") (QueryGet r "limit")
                            (QueryGet r "offset")).1
        (Orders.build_query (QueryGet r "city") (QueryGet r "limit")
                            (QueryGet r "offset")).2 ≠ Orders.Rows scanned) →
  let st' := Orders.getUsersHandler db elapsed r st in
  status (writer (Orders.server st')) = Some 500 ∧
  headers (writer (Orders.server st')) !! "Content-Type"
    = Some "text/plain; charset=utf-8" ∧
  chunks (writer (Orders.server st')) =
    chunks (writer (Orders.server st)) ++
    [Text ("Internal server error" +:+ newline)] ∧
  ∃ line, logs (Orders.server st') = logs (Orders.server st) ++ [line].
Proof.
  intros Hget Hfresh Hdb. cbn zeta. unfold Orders.getUsersHandler.
  rewrite decide_False by (by rewrite Hget; intros []).
  destruct (Orders.build_query _ _ _) as [query args]; cbn in Hdb.
  destruct (db query args) as [e|? e|? e|scanned] eqn:Hanswer;
    [| | |by destruct (Hdb scanned)];
    unfold Orders.on_server, respond, Printf, http_Error, Write, WriteHeader, Set_;
    cbn; rewrite Hfresh; cbn;
    (split; [done|]);
    (split; [rewrite lookup_insert_ne by done; apply lookup_insert_eq|]);
    (split; [done|]); by eexists.
Qed.

Lemma getUsersHandler_failure_witness :
  let st' := Orders.getUsersHandler
               (λ _ _, Orders.ScanError [] "sql: Scan error on column index 3")
               1234 (listing_request "Almaty" "10" "") started in
  status (writer (Orders.server st')) = Some 500 ∧
  headers (writer (Orders.server st')) !! "Content-Type"
    = Some "text/plain; charset=utf-8" ∧
  chunks (writer (Orders.server st')) =
    chunks (writer (Orders.server started)) ++
    [Text ("Internal server error" +:+ newline)] ∧
  ∃ line, logs (Orders.server st') = logs (Orders.server started) ++ [line].
Proof.
  apply (getUsersHandler_failure
           (λ _ _, Orders.ScanError [] "sql: Scan error on column index 3")
           1234 (listing_request "Almaty" "10" "") started).
  - reflexivity.
  - reflexivity.
  - intros scanned. discriminate.
Defined.

(** ** The column check *)

Lemma foundColumns_lookup (rows : list Column) (n : string) :
  default false (foundColumns rows !! n) = true ↔ n ∈ cname <$> rows.
Proof.
  unfold foundColumns.
  assert (∀ (found : gmap string bool),
            (∀ k b, found !! k = Some b → b = true) →
            default false (foldl (λ found c, <[cname c := true]> found) found rows !! n)
              = true ↔ (is_Some (found !! n) ∨ n ∈ cname <$> rows)) as Hgen.
  { induction rows as [|c rows IH]; intros found Htrue; cbn.
    - split.
      + destruct (found !! n) eqn:Hn; cbn; [by eauto|done].
      + intros [[b Hb]|Hin]; [|by apply elem_of_nil in Hin].
        rewrite Hb. cbn. by eapply Htrue.
    - rewrite IH.
      + rewrite lookup_insert_is_Some, elem_of_cons.
        destruct (decide (cname c = n)); intuition congruence.
      + intros k b [[_ <-]|[_ Hk]]%lookup_insert_Some; [done|by eapply Htrue]. }
  rewrite Hgen by (intros k b; by rewrite lookup_empty).
  rewrite lookup_empty. split; [|by eauto]. by intros [[? ?]|?].
Qed.

(** X28: The column check passes exactly when every expected column name is the
    name of some column of the table.  The types written in
    [expectedColumns] are never compared with the types of the table, and
    columns that are not expected do no harm. *)
Theorem columns_found_names_only (expectedColumns : gmap string string)
    (rows : list Column) :
  columns_found expectedColumns rows = true ↔
  ∀ colName, colName ∈ dom expectedColumns → colName ∈ cname <$> rows.
Proof.
  unfold columns_found. rewrite bool_decide_eq_true. split.
  - intros Hall n [ty Hty]%elem_of_dom. apply foundColumns_lookup.
    by apply (Hall n ty).
  - intros Hall n ty Hty. apply foundColumns_lookup, Hall, elem_of_dom. by eexists.
Qed.

Example verifyUsersTable_ignores_types :
  verifyUsersTable_columns
    [mkColumn 0 "id" "BLOB" 0 None 0; mkColumn 1 "email" "BLOB" 0 None 0;
     mkColumn 2 "name" "BLOB" 0 None 0; mkColumn 3 "created_at" "BLOB" 0 None 0;
     mkColumn 4 "extra" "BLOB" 0 None 0] = true ∧
  verifyUsersTable_columns
    [mkColumn 0 "id" "INTEGER" 0 None 1; mkColumn 1 "email" "TEXT" 1 None 0;
     mkColumn 2 "name" "TEXT" 1 None 0] = false.
Proof. by vm_compute. Qed.

(** ** What a transfer leaves alone, and witnesses for the lemmas above *)

(** X29: A transfer creates and deletes no row, changes no name and no email, and
    changes no balance but the sender's and the receiver's. *)
Theorem TransferBalance_frame fromID toID amount db :
  dom (users (snd (TransferBalance fromID toID amount db))) = dom (users db) ∧
  ∀ id r,
    users db !! id = Some r →
    ∃ b,
      users (snd (TransferBalance fromID toID amount db)) !! id
        = Some (set_balance r b) ∧
      (id ≠ fromID → id ≠ toID → b = balance r).
Proof.
  split; [apply TransferBalance_same_ids|].
  intros id r Hr.
  destruct (TransferBalance_only_balance fromID toID amount db id r Hr) as [b Hb].
  exists b. split; [done|]. intros Hf Ht.
  rewrite (TransferBalance_other_rows fromID toID amount db id Hf Ht), Hr in Hb.
  by injection Hb as ->.
Qed.

Lemma TransferBalance_errors_witness :
  (∃ b, ErrInsufficient 100000 1000000 = ErrInsufficient b 1000000 ∧ exceeds 1000000 b) ∨
  ∃ p cause, ErrInsufficient 100000 1000000 = Errorf p cause ∧
    p ∈ ["failed to begin transaction"; "failed to get sender balance";
         "failed to decrease sender balance"; "failed to increase receiver balance";
         "failed to commit transaction"].
Proof.
  apply (TransferBalance_errors 1 2 1000000 (connect seed healthy)).
  vm_compute. reflexivity.
Defined.

Lemma TransferBalance_missing_sender_witness :
  ∃ db',
    TransferBalance 99 2 1000 (connect seed healthy) =
      (Some (Errorf "failed to get sender balance" ErrNoRows), db') ∧
    users db' = users (connect seed healthy).
Proof.
  apply (TransferBalance_missing_sender 99 2 1000 (connect seed healthy)).
  - reflexivity.
  - intros k _. reflexivity.
Defined.

Lemma TransferBalance_two_mutations_witness :
  ∃ new,
    calls (snd (TransferBalance 1 2 10000 (connect seed healthy)))
      = calls (connect seed healthy) ++ new ∧
    mutated_rows new = 2%nat.
Proof.
  apply (TransferBalance_two_mutations 1 2 10000 (connect seed healthy) john jane).
  - reflexivity.
  - reflexivity.
  - vm_compute. discriminate.
  - intros k _. reflexivity.
Defined.
